(** * devforge orchestration core: brain/orchestrator.py and brain/creative.py

    A shallow embedding of the fast-path resolver, the provider fan-out, the
    vote reconciler, the short-term memory ring buffer and the novelty score,
    followed by the properties stated about them.

    Conventions of the embedding.
    - A Python [str] is a [string]; its characters are the code points below
      256 (Latin-1), which is where [str.lower], [str.isspace] and the regex
      class [\s] are modelled.
    - The module-level [MEMORY] deque and the record of HTTP posts are threaded
      explicitly as a [State].
    - The process environment, the remote services and SymPy are a [World].

    The second part of the file adds [memory_tail], the sequential ensemble
    of brain/providers.py and [api_ask] of apps/api/main.py, which call or
    are called by the functions above. *)

From Stdlib Require Import String Ascii List Bool Arith ZArith Lia QArith Permutation.
Import ListNotations.
Open Scope string_scope.
Open Scope list_scope.
Open Scope nat_scope.

(** ** Python string primitives *)

Module PyStr.

(** [str.isspace] on one character, which is also the regex class [\s] of
    a str pattern: TAB..CR, FS..US, SPACE, NEL and NBSP. *)
Definition isspace (c : ascii) : bool :=
  let n := nat_of_ascii c in
  ((9 <=? n) && (n <=? 13)) || ((28 <=? n) && (n <=? 32))
  || (n =? 133) || (n =? 160).

Definition lower_char (c : ascii) : ascii :=
  let n := nat_of_ascii c in
  if ((65 <=? n) && (n <=? 90))
     || ((192 <=? n) && (n <=? 222) && negb (n =? 215))
  then ascii_of_nat (n + 32) else c.

(** [s.lower()] *)
Fixpoint lower (s : string) : string :=
  match s with
  | EmptyString => EmptyString
  | String c s' => String (lower_char c) (lower s')
  end.

(** Truthiness of a str: [if s:] *)
Definition truthy (s : string) : bool :=
  match s with EmptyString => false | String _ _ => true end.

Fixpoint lstrip (s : string) : string :=
  match s with
  | EmptyString => EmptyString
  | String c s' => if isspace c then lstrip s' else s
  end.

Fixpoint rstrip (s : string) : string :=
  match s with
  | EmptyString => EmptyString
  | String c s' =>
      let r := rstrip s' in
      if isspace c && negb (truthy r) then EmptyString else String c r
  end.

(** [s.strip()] *)
Definition strip (s : string) : string := rstrip (lstrip s).

(** [s.startswith(p)] *)
Fixpoint startswith (p s : string) : bool :=
  match p, s with
  | EmptyString, _ => true
  | String a p', String b s' => Ascii.eqb a b && startswith p' s'
  | String _ _, EmptyString => false
  end.

(** [sub in s] *)
Fixpoint contains (sub s : string) : bool :=
  startswith sub s ||
  match s with
  | EmptyString => false
  | String _ s' => contains sub s'
  end.

(** [c in s] for a single character *)
Fixpoint mem_char (c : ascii) (s : string) : bool :=
  match s with
  | EmptyString => false
  | String d s' => Ascii.eqb c d || mem_char c s'
  end.

Fixpoint all_chars (p : ascii -> bool) (s : string) : bool :=
  match s with
  | EmptyString => true
  | String c s' => p c && all_chars p s'
  end.

Fixpoint any_chars (p : ascii -> bool) (s : string) : bool :=
  match s with
  | EmptyString => false
  | String c s' => p c || any_chars p s'
  end.

(** [s.endswith(p)] *)
Fixpoint endswith (p s : string) : bool :=
  String.eqb p s ||
  match s with
  | EmptyString => false
  | String _ s' => endswith p s'
  end.

(** [s[:-n]] for [n > 0] *)
Definition drop_last (n : nat) (s : string) : string :=
  substring 0 (String.length s - n) s.

(** [re.sub] of whitespace runs: every maximal run of whitespace becomes one
    space.  [in_run] tells that the previous character was whitespace. *)
Fixpoint collapse_ws_from (in_run : bool) (s : string) : string :=
  match s with
  | EmptyString => EmptyString
  | String c s' =>
      if isspace c
      then if in_run then collapse_ws_from true s'
           else String " " (collapse_ws_from true s')
      else String c (collapse_ws_from false s')
  end.

Definition collapse_ws (s : string) : string := collapse_ws_from false s.

(** [re.sub] of backtick runs by nothing *)
Fixpoint remove_backticks (s : string) : string :=
  match s with
  | EmptyString => EmptyString
  | String c s' =>
      if Ascii.eqb c "`" then remove_backticks s'
      else String c (remove_backticks s')
  end.

(** [s.split()]: the maximal runs of non-whitespace.  [cur] is the token
    being read. *)
Fixpoint split_from (cur : string) (s : string) : list string :=
  match s with
  | EmptyString => if truthy cur then [cur] else []
  | String c s' =>
      if isspace c
      then if truthy cur then cur :: split_from EmptyString s'
           else split_from EmptyString s'
      else split_from (cur ++ String c EmptyString)%string s'
  end.

Definition split (s : string) : list string := split_from EmptyString s.

(** [sep.join(l)] *)
Fixpoint join (sep : string) (l : list string) : string :=
  match l with
  | [] => EmptyString
  | [x] => x
  | x :: l' => (x ++ sep ++ join sep l')%string
  end.

(** [s.split(d)] for a one-character separator *)
Fixpoint split_on_from (d : ascii) (cur : string) (s : string) : list string :=
  match s with
  | EmptyString => [cur]
  | String c s' =>
      if Ascii.eqb c d then cur :: split_on_from d EmptyString s'
      else split_on_from d (cur ++ String c EmptyString)%string s'
  end.

Definition split_on (d : ascii) (s : string) : list string :=
  split_on_from d EmptyString s.

End PyStr.

(** ** Short-term memory: [MEMORY = deque(maxlen=50)] *)

Definition MEMORY_MAXLEN : nat := 50.

Definition Memory := list (string * string).

(** [deque.append] on a bounded deque: a full deque drops its oldest (left)
    element. *)
Definition deque_append {A} (maxlen : nat) (x : A) (d : list A) : list A :=
  if maxlen <=? List.length d then tl d ++ [x] else d ++ [x].

Definition memory_add (q a : string) (MEMORY : Memory) : Memory :=
  if PyStr.truthy q && PyStr.truthy a
  then deque_append MEMORY_MAXLEN (q, a) MEMORY
  else MEMORY.

(** ** Vote reconciler *)

Definition _normalize_for_vote (s : string) : string :=
  let s := PyStr.lower (PyStr.strip s) in
  let s := PyStr.remove_backticks s in
  PyStr.collapse_ws s.

(** A Python dict keyed by str, in insertion order. *)
Definition dict (V : Type) := list (string * V).

Fixpoint dict_get {V} (k : string) (d : dict V) : option V :=
  match d with
  | [] => None
  | (k', v) :: d' => if String.eqb k' k then Some v else dict_get k d'
  end.

Definition dict_mem {V} (k : string) (d : dict V) : bool :=
  match dict_get k d with Some _ => true | None => false end.

(** [d[k] = v]: an existing key keeps its place, a new key goes last. *)
Fixpoint dict_set {V} (k : string) (v : V) (d : dict V) : dict V :=
  match d with
  | [] => [(k, v)]
  | (k', v') :: d' =>
      if String.eqb k' k then (k', v) :: d' else (k', v') :: dict_set k v d'
  end.

Definition Counts := dict (nat * string).

(** One turn of the loop [for raw in candidates] of [_vote_select]. *)
Definition vote_step (counts : Counts) (raw : string) : Counts :=
  let n := _normalize_for_vote raw in
  if negb (PyStr.truthy n) then counts
  else
    let counts := if dict_mem n counts then counts else dict_set n (0, raw) counts in
    match dict_get n counts with
    | Some (c, r) => dict_set n (c + 1, r) counts
    | None => counts
    end.

Definition vote_counts (candidates : list string) : Counts :=
  fold_left vote_step candidates [].

(** The sort key [(kv[1][0], len(kv[1][1]))] and the order on such pairs. *)
Definition vote_key (kv : string * (nat * string)) : nat * nat :=
  (fst (snd kv), String.length (snd (snd kv))).

Definition key_leb (a b : nat * nat) : bool :=
  (fst a <? fst b) || ((fst a =? fst b) && (snd a <=? snd b)).

(** [sorted(l, key=key, reverse=True)]: descending and stable, elements with
    equal keys keep the order they had in [l]. *)
Section Sorted.
Context {A : Type} (key : A -> nat * nat).

Fixpoint insert_desc (x : A) (l : list A) : list A :=
  match l with
  | [] => [x]
  | y :: l' =>
      if key_leb (key y) (key x) then x :: l else y :: insert_desc x l'
  end.

Fixpoint sorted_desc (l : list A) : list A :=
  match l with
  | [] => []
  | x :: l' => insert_desc x (sorted_desc l')
  end.
End Sorted.

Definition _vote_select (candidates : list string) : string :=
  match candidates with
  | [] => ""
  | first :: _ =>
      let counts := vote_counts candidates in
      match sorted_desc vote_key counts with
      | [] => first
      | top :: _ => snd (snd top)
      end
  end.

(** ** Math safe-path *)

Definition _ALLOWED_MATH : string := "0123456789+-*/()% .".

(** [_math_try].  [evalf] stands for [str(sympify(expr).evalf())] of SymPy,
    which is not part of the repository: [None] when it raises. *)
Definition _math_try (evalf : string -> option string) (expr : string) : string :=
  if PyStr.truthy expr
     && PyStr.all_chars (fun c => PyStr.mem_char c _ALLOWED_MATH) expr
  then
    if PyStr.any_chars (fun op => PyStr.mem_char op expr) "+-*/%"
    then
      match evalf expr with
      | Some s => if PyStr.endswith ".0" s then PyStr.drop_last 2 s else s
      | None => ""
      end
    else ""
  else "".

(** ** Backtracking regex combinators

    The patterns of the module are sequences of literals, greedy repetitions
    of a character class and optional groups.  A matcher takes the input and
    a continuation for what follows the sub-pattern; a failing continuation
    makes the matcher try its next alternative, as [re] does. *)

Section Regex.
Context {R : Type}.

(** A literal [p]; the input is compared through [fold] (the identity, or
    [lower_char] under [re.I]). *)
Fixpoint re_lit (fold : ascii -> ascii) (p s : string)
         (k : string -> option R) : option R :=
  match p with
  | EmptyString => k s
  | String a p' =>
      match s with
      | String b s' =>
          if Ascii.eqb a (fold b) then re_lit fold p' s' k else None
      | EmptyString => None
      end
  end.

(** [cls*], greedy: the longest run first, then shorter ones.  The
    continuation receives the matched text and the rest. *)
Fixpoint re_star (cls : ascii -> bool) (acc s : string)
         (k : string -> string -> option R) : option R :=
  match s with
  | String c s' =>
      if cls c then
        match re_star cls (acc ++ String c EmptyString)%string s' k with
        | Some r => Some r
        | None => k acc s
        end
      else k acc s
  | EmptyString => k acc s
  end.

(** [cls+], greedy *)
Definition re_plus (cls : ascii -> bool) (s : string)
           (k : string -> string -> option R) : option R :=
  match s with
  | String c s' =>
      if cls c then re_star cls (String c EmptyString) s' k else None
  | EmptyString => None
  end.

(** [(m)?], greedy: with the group first, without it second *)
Definition re_opt (m : string -> (string -> option R) -> option R)
           (s : string) (k : string -> option R) : option R :=
  match m s k with
  | Some r => Some r
  | None => k s
  end.

(** [(m)??], lazy: without the group first *)
Definition re_opt_lazy (m : string -> (string -> option R) -> option R)
           (s : string) (k : string -> option R) : option R :=
  match k s with
  | Some r => Some r
  | None => m s k
  end.

(** [re.search]: the match at the leftmost position that has one *)
Fixpoint re_search (m : string -> option R) (s : string) : option R :=
  match m s with
  | Some r => Some r
  | None =>
      match s with
      | String _ s' => re_search m s'
      | EmptyString => None
      end
  end.
End Regex.

Definition no_fold (c : ascii) : ascii := c.

(** The [re.sub] of [_strip_answer], under [re.I]: optional whitespace, the
    word answer, optional whitespace, a colon, optional whitespace.  The
    pattern is anchored at the start, so at most that prefix is removed. *)
Definition sub_answer_prefix (t : string) : string :=
  match
    re_star PyStr.isspace EmptyString t (fun _ s1 =>
    re_lit PyStr.lower_char "answer" s1 (fun s2 =>
    re_star PyStr.isspace EmptyString s2 (fun _ s3 =>
    re_lit no_fold ":" s3 (fun s4 =>
    re_star PyStr.isspace EmptyString s4 (fun _ s5 => Some s5)))))
  with
  | Some rest => rest
  | None => t
  end.

Definition _strip_answer (text : string) : string :=
  if negb (PyStr.truthy text) then ""
  else
    let t := PyStr.strip text in
    let t := sub_answer_prefix t in
    PyStr.strip t.

(** ** Tiny internal facts *)

Definition FACTS : dict string :=
  [ ("capital city of kenya", "Nairobi");
    ("capital city of tanzania", "Dodoma");
    ("president of china", "Xi Jinping");
    ("mount kenya continent", "Africa");
    ("largest mountain in the world", "Mount Everest") ].

Definition _CAPITAL_OF : dict string :=
  [ ("kenya", "Nairobi");
    ("tanzania", "Dodoma");
    ("south africa",
     "Pretoria (administrative), Cape Town (legislative), Bloemfontein (judicial)") ].

(** The class [[a-z\s\-]] *)
Definition country_class (c : ascii) : bool :=
  let n := nat_of_ascii c in
  ((97 <=? n) && (n <=? 122)) || PyStr.isspace c || Ascii.eqb c "-".

(** The [re.search] of stage (2) on [ql], giving [group(2)] of the match: the
    word capital, whitespace, optionally the word city and whitespace, the
    word of, whitespace, a greedy run of [country_class] (group 2), and a
    lazy optional question mark. *)
Definition capital_search (ql : string) : option string :=
  re_search (fun s =>
    re_lit no_fold "capital" s (fun s1 =>
    re_plus PyStr.isspace s1 (fun _ s2 =>
    re_opt (fun s k =>
              re_lit no_fold "city" s (fun s3 =>
              re_plus PyStr.isspace s3 (fun _ s4 => k s4))) s2 (fun s5 =>
    re_lit no_fold "of" s5 (fun s6 =>
    re_plus PyStr.isspace s6 (fun _ s7 =>
    re_plus country_class s7 (fun g2 s8 =>
    re_opt_lazy (fun s k => re_lit no_fold "?" s k) s8 (fun _ =>
    Some g2)))))))) ql.

(** Stage (2) of [answer_question], up to its first [return]: the capital
    pattern and the lookup of the country in [_CAPITAL_OF]. *)
Definition capital_lookup (ql : string) : option string :=
  if PyStr.contains "capital" ql && PyStr.contains " of " ql then
    match capital_search ql with
    | Some g2 =>
        let country := PyStr.strip g2 in
        match dict_get country _CAPITAL_OF with
        | Some ans_cap => if PyStr.truthy ans_cap then Some ans_cap else None
        | None => None
        end
    | None => None
    end
  else None.

(** The loop over [FACTS.items()]: the first key found in [ql] *)
Fixpoint facts_scan (facts : dict string) (ql : string) : option string :=
  match facts with
  | [] => None
  | (k, v) :: facts' =>
      if PyStr.contains k ql then Some v else facts_scan facts' ql
  end.

(** Stage (2) as a whole *)
Definition facts_lookup (ql : string) : option string :=
  match capital_lookup ql with
  | Some a => Some a
  | None => facts_scan FACTS ql
  end.

(** Stage (3): [for (qq, aa) in reversed(MEMORY)] *)
Fixpoint memory_scan (rev_memory : Memory) (ql : string) : option string :=
  match rev_memory with
  | [] => None
  | (qq, aa) :: rest =>
      if String.eqb (PyStr.lower qq) ql && PyStr.truthy aa then Some aa
      else memory_scan rest ql
  end.

Definition memory_lookup (MEMORY : Memory) (ql : string) : option string :=
  memory_scan (rev MEMORY) ql.

(** ** The world outside the process *)

(** What the extraction code of a provider wrapper finds in [r.json()].
    [Content t]: the scalar field the wrapper indexes (the message content of
    openai and mistral, the first part text of google, the top-level text of
    cohere) is there and holds the str [t].
    [Parts ps]: the list of content blocks read by anthropic and by the
    second path of cohere, each block with its type and its text.
    [Malformed]: anything on which the extraction raises.
    A field that holds a value other than a str is outside this type. *)
Inductive Payload : Type :=
| Malformed
| Content (text : string)
| Parts (parts : list (string * string)).

(** What [requests.post] does: it raises, or gives a response. *)
Inductive HttpResult : Type :=
| TransportError
| Response (status_code : nat) (body : Payload).

Record World : Type := {
  (** [os.getenv] *)
  getenv : string -> option string;
  (** the [n]-th POST of the process to a provider, with its prompt *)
  http_post : string -> string -> nat -> HttpResult;
  (** [str(sympify(expr).evalf())], [None] when it raises *)
  sympify_evalf : string -> option string;
  (** the order in which [as_completed] yields the submitted providers,
      when every call is over by the deadline (see [ensemble_timed]) *)
  as_completed : list string -> list string
}.

(** Completion order is some order of the submitted futures. *)
Definition World_ok (w : World) : Prop :=
  forall l, Permutation (as_completed w l) l.

(** [os.getenv(k)] used as a condition *)
Definition env_set (w : World) (k : string) : bool :=
  match getenv w k with
  | Some v => PyStr.truthy v
  | None => false
  end.

(** The mutable state of the process: the [MEMORY] deque and, for the
    properties about network calls, the providers posted to so far. *)
Record State : Type := {
  MEMORY : Memory;
  posts : list string
}.

(** A call either raises or returns an [Optional[str]]. *)
Inductive Outcome : Type :=
| Raised
| Returned (r : option string).

Definition do_post (w : World) (name prompt : string) (st : State)
  : HttpResult * State :=
  (http_post w name prompt (count_occ string_dec (posts st) name),
   {| MEMORY := MEMORY st; posts := posts st ++ [name] |}).

(** [p.get(text) for p in parts if p.get(type) == text], joined *)
Fixpoint join_text_parts (parts : list (string * string)) : string :=
  match parts with
  | [] => ""
  | (ty, tx) :: parts' =>
      if String.eqb ty "text" then (tx ++ join_text_parts parts')%string
      else join_text_parts parts'
  end.

(** [s or None] *)
Definition or_None (s : string) : option string :=
  if PyStr.truthy s then Some s else None.

(** ** Provider wrappers *)

Definition _openai_chat (w : World) (prompt : string) (st : State)
  : Outcome * State :=
  if negb (env_set w "OPENAI_API_KEY") then (Returned None, st)
  else
    match do_post w "openai" prompt st with
    | (TransportError, st') => (Raised, st')
    | (Response status_code body, st') =>
        if 400 <=? status_code then (Returned None, st')
        else match body with
             | Content text => (Returned (Some text), st')
             | _ => (Returned None, st')
             end
    end.

Definition _anthropic_chat (w : World) (prompt : string) (st : State)
  : Outcome * State :=
  if negb (env_set w "ANTHROPIC_API_KEY") then (Returned None, st)
  else
    match do_post w "anthropic" prompt st with
    | (TransportError, st') => (Raised, st')
    | (Response status_code body, st') =>
        if 400 <=? status_code then (Returned None, st')
        else match body with
             | Parts parts => (Returned (or_None (join_text_parts parts)), st')
             | Content _ => (Returned (or_None (join_text_parts [])), st')
             | Malformed => (Returned None, st')
             end
    end.

Definition _google_chat (w : World) (prompt : string) (st : State)
  : Outcome * State :=
  if negb (env_set w "GOOGLE_API_KEY" || env_set w "GEMINI_API_KEY")
  then (Returned None, st)
  else
    match do_post w "google" prompt st with
    | (TransportError, st') => (Raised, st')
    | (Response status_code body, st') =>
        if 400 <=? status_code then (Returned None, st')
        else match body with
             | Content text => (Returned (Some text), st')
             | _ => (Returned None, st')
             end
    end.

Definition _mistral_chat (w : World) (prompt : string) (st : State)
  : Outcome * State :=
  if negb (env_set w "MISTRAL_API_KEY") then (Returned None, st)
  else
    match do_post w "mistral" prompt st with
    | (TransportError, st') => (Raised, st')
    | (Response status_code body, st') =>
        if 400 <=? status_code then (Returned None, st')
        else match body with
             | Content text => (Returned (Some text), st')
             | _ => (Returned None, st')
             end
    end.

Definition _cohere_chat (w : World) (prompt : string) (st : State)
  : Outcome * State :=
  if negb (env_set w "COHERE_API_KEY") then (Returned None, st)
  else
    match do_post w "cohere" prompt st with
    | (TransportError, st') => (Raised, st')
    | (Response status_code body, st') =>
        if 400 <=? status_code then (Returned None, st')
        else match body with
             | Content text => (Returned (Some text), st')
             | Parts parts => (Returned (or_None (join_text_parts parts)), st')
             | Malformed => (Returned None, st')
             end
    end.

Definition ProviderFunc := World -> string -> State -> Outcome * State.

Definition _PROVIDER_FUNCS : dict ProviderFunc :=
  [ ("openai", _openai_chat);
    ("anthropic", _anthropic_chat);
    ("google", _google_chat);
    ("mistral", _mistral_chat);
    ("cohere", _cohere_chat) ].

(** [x in l] for a list of str *)
Definition str_in (x : string) (l : list string) : bool :=
  existsb (String.eqb x) l.

(** The body of [_provider_order] after its first [return]. *)
Definition env_order (w : World) : list string :=
  let order_env :=
    match getenv w "PROVIDER_ORDER" with Some v => v | None => "" end in
  let order :=
    if PyStr.truthy order_env
    then map PyStr.strip
             (filter (fun p => dict_mem (PyStr.strip p) _PROVIDER_FUNCS)
                     (PyStr.split_on "," order_env))
    else [] in
  match order with
  | _ :: _ => order
  | [] => ["openai"; "anthropic"; "google"; "mistral"; "cohere"]
  end.

Definition _provider_order (w : World) (force_provider : option string)
  : list string :=
  match force_provider with
  | Some fp =>
      if PyStr.truthy fp && dict_mem fp _PROVIDER_FUNCS then [fp]
      else env_order w
  | None => env_order w
  end.

Definition _active_providers (w : World) (order : list string) : list string :=
  let act := [] in
  let act := if str_in "openai" order && env_set w "OPENAI_API_KEY"
             then act ++ ["openai"] else act in
  let act := if str_in "anthropic" order && env_set w "ANTHROPIC_API_KEY"
             then act ++ ["anthropic"] else act in
  let act := if str_in "google" order
                && (env_set w "GOOGLE_API_KEY" || env_set w "GEMINI_API_KEY")
             then act ++ ["google"] else act in
  let act := if str_in "mistral" order && env_set w "MISTRAL_API_KEY"
             then act ++ ["mistral"] else act in
  let act := if str_in "cohere" order && env_set w "COHERE_API_KEY"
             then act ++ ["cohere"] else act in
  act.

(** ** Public entrypoint *)

Record Answer : Type := {
  mode : string;
  answer : string;
  provider : string;
  providers_used : list string;
  from_memory : bool
}.

Definition set_memory (m : Memory) (st : State) : State :=
  {| MEMORY := m; posts := posts st |}.

(** Calling [_PROVIDER_FUNCS[p]]; every name that reaches a call is a key. *)
Definition call_provider (w : World) (p prompt : string) (st : State)
  : Outcome * State :=
  match dict_get p _PROVIDER_FUNCS with
  | Some fn => fn w prompt st
  | None => (Raised, st)
  end.

(** [ex.submit] for every active provider: each wrapper runs once. *)
Fixpoint submit_all (w : World) (active : list string) (prompt : string)
         (st : State) : dict Outcome * State :=
  match active with
  | [] => ([], st)
  | p :: active' =>
      let '(o, st1) := call_provider w p prompt st in
      let '(futures, st2) := submit_all w active' prompt st1 in
      ((p, o) :: futures, st2)
  end.

(** The loop over [as_completed(futures)]: [answers] and [used] grow together. *)
Fixpoint collect (futures : dict Outcome) (completed : list string)
         (answers used : list string) : list string * list string :=
  match completed with
  | [] => (answers, used)
  | prov :: completed' =>
      match dict_get prov futures with
      | Some (Returned (Some resp)) =>
          if PyStr.truthy resp
          then collect futures completed'
                       (answers ++ [_strip_answer resp]) (used ++ [prov])
          else collect futures completed' answers used
      | _ => collect futures completed' answers used
      end
  end.

Definition no_answer : Answer :=
  {| mode := "single";
     answer := "I don't have an exact answer yet for that.";
     provider := "none";
     providers_used := [];
     from_memory := false |}.

(** Stage (4) after the forced call: fan-out, vote, last resort, when every
    submitted call is over by the deadline of [as_completed]. *)
Definition ensemble (w : World) (q prompt : string) (active : list string)
           (st : State) : Answer * State :=
  let '(futures, st1) := submit_all w active prompt st in
  let '(answers, used) := collect futures (as_completed w active) [] [] in
  match answers with
  | _ :: _ =>
      let final := _vote_select answers in
      let st2 := set_memory (memory_add q final (MEMORY st1)) st1 in
      let provider_label :=
        if 1 <? List.length used then "ensemble"
        else match used with u :: _ => u | [] => "unknown" end in
      ({| mode := "single"; answer := final; provider := provider_label;
          providers_used := used; from_memory := false |}, st2)
  | [] => (no_answer, st1)
  end.

Definition newline : string := String (ascii_of_nat 10) EmptyString.

(** The f-string that adds the context to the question *)
Definition make_prompt (q context : string) : string :=
  if PyStr.truthy context
  then (q ++ newline ++ newline ++ "Context:" ++ newline ++ context)%string
  else q.

(** Stage (4) of [answer_question]: the forced single call, then the
    ensemble. *)
Definition provider_stage (w : World) (q : string)
           (force_provider : option string) (context : string) (st : State)
  : Answer * State :=
  let prompt := make_prompt q context in
  let order := _provider_order w force_provider in
  let active := _active_providers w order in
  match force_provider with
  | Some fp =>
      if PyStr.truthy fp && str_in fp active then
        let '(o, st1) := call_provider w fp prompt st in
        let text := match o with Returned r => r | Raised => None end in
        match text with
        | Some t =>
            if PyStr.truthy t then
              let ans := _strip_answer t in
              ({| mode := "single"; answer := ans; provider := fp;
                  providers_used := [fp]; from_memory := false |},
               set_memory (memory_add q ans (MEMORY st1)) st1)
            else ensemble w q prompt active st1
        | None => ensemble w q prompt active st1
        end
      else ensemble w q prompt active st
  | None => ensemble w q prompt active st
  end.

(** [answer_question].  The deliberate pause of step (A) changes neither the
    result nor the state and is left out. *)
Definition answer_question (w : World) (question : string)
           (force_provider : option string) (context : string) (st : State)
  : Answer * State :=
  let q := PyStr.strip question in
  let ql := PyStr.lower q in
  let m := _math_try (sympify_evalf w) ql in
  if PyStr.truthy m then
    ({| mode := "single"; answer := m; provider := "local-math";
        providers_used := []; from_memory := false |},
     set_memory (memory_add q m (MEMORY st)) st)
  else
  match capital_lookup ql with
  | Some ans_cap =>
      ({| mode := "single"; answer := ans_cap; provider := "local-facts";
          providers_used := []; from_memory := false |},
       set_memory (memory_add q ans_cap (MEMORY st)) st)
  | None =>
  match facts_scan FACTS ql with
  | Some v =>
      ({| mode := "single"; answer := v; provider := "local-facts";
          providers_used := []; from_memory := false |},
       set_memory (memory_add q v (MEMORY st)) st)
  | None =>
  match memory_lookup (MEMORY st) ql with
  | Some aa =>
      ({| mode := "single"; answer := aa; provider := "local-memory";
          providers_used := []; from_memory := true |}, st)
  | None => provider_stage w q force_provider context st
  end end end.

(** ** The deadline of the fan-out *)

(** How a call of [answer_question] ends.  The loop over
    [as_completed(futures, timeout=TIMEOUT_S + 5)] stands outside every
    [try]: when a submitted call is still running that many seconds after
    the loop began, the iterator raises TimeoutError, and the exception
    leaves [answer_question] after the posts and before any write to the
    ring buffer. *)
Inductive Run : Type :=
| Returns (a : Answer) (st : State)
| Raises_TimeoutError (st : State).

(** The fan-out with its deadline; [late p] tells that the call submitted
    for provider [p] is still running at the deadline.  Without a late call
    this is [ensemble]. *)
Definition ensemble_timed (late : string -> bool) (w : World)
           (q prompt : string) (active : list string) (st : State) : Run :=
  let '(futures, st1) := submit_all w active prompt st in
  if existsb late active then Raises_TimeoutError st1
  else
    let '(answers, used) := collect futures (as_completed w active) [] [] in
    match answers with
    | _ :: _ =>
        let final := _vote_select answers in
        let st2 := set_memory (memory_add q final (MEMORY st1)) st1 in
        let provider_label :=
          if 1 <? List.length used then "ensemble"
          else match used with u :: _ => u | [] => "unknown" end in
        Returns {| mode := "single"; answer := final;
                   provider := provider_label;
                   providers_used := used; from_memory := false |} st2
    | [] => Returns no_answer st1
    end.

(** The forced call is made in the calling thread and has no deadline of
    its own. *)
Definition provider_stage_timed (late : string -> bool) (w : World)
           (q : string) (force_provider : option string) (context : string)
           (st : State) : Run :=
  let prompt := make_prompt q context in
  let order := _provider_order w force_provider in
  let active := _active_providers w order in
  match force_provider with
  | Some fp =>
      if PyStr.truthy fp && str_in fp active then
        let '(o, st1) := call_provider w fp prompt st in
        let text := match o with Returned r => r | Raised => None end in
        match text with
        | Some t =>
            if PyStr.truthy t then
              let ans := _strip_answer t in
              Returns {| mode := "single"; answer := ans; provider := fp;
                         providers_used := [fp]; from_memory := false |}
                      (set_memory (memory_add q ans (MEMORY st1)) st1)
            else ensemble_timed late w q prompt active st1
        | None => ensemble_timed late w q prompt active st1
        end
      else ensemble_timed late w q prompt active st
  | None => ensemble_timed late w q prompt active st
  end.

Definition answer_question_timed (late : string -> bool) (w : World)
           (question : string) (force_provider : option string)
           (context : string) (st : State) : Run :=
  let q := PyStr.strip question in
  let ql := PyStr.lower q in
  let m := _math_try (sympify_evalf w) ql in
  if PyStr.truthy m then
    Returns {| mode := "single"; answer := m; provider := "local-math";
               providers_used := []; from_memory := false |}
            (set_memory (memory_add q m (MEMORY st)) st)
  else
  match capital_lookup ql with
  | Some ans_cap =>
      Returns {| mode := "single"; answer := ans_cap;
                 provider := "local-facts";
                 providers_used := []; from_memory := false |}
              (set_memory (memory_add q ans_cap (MEMORY st)) st)
  | None =>
  match facts_scan FACTS ql with
  | Some v =>
      Returns {| mode := "single"; answer := v; provider := "local-facts";
                 providers_used := []; from_memory := false |}
              (set_memory (memory_add q v (MEMORY st)) st)
  | None =>
  match memory_lookup (MEMORY st) ql with
  | Some aa =>
      Returns {| mode := "single"; answer := aa; provider := "local-memory";
                 providers_used := []; from_memory := true |} st
  | None => provider_stage_timed late w q force_provider context st
  end end end.

(** ** brain/creative.py: shingles and novelty *)

(** [collections.Counter] over str keys *)
Definition Counter := dict nat.

Definition counter_add (c : Counter) (g : string) : Counter :=
  match dict_get g c with
  | Some n => dict_set g (n + 1) c
  | None => dict_set g 1 c
  end.

Definition Counter_of (grams : list string) : Counter :=
  fold_left counter_add grams [].

(** [c[g]]: a missing key counts 0 *)
Definition counter_get (c : Counter) (g : string) : nat :=
  match dict_get g c with Some n => n | None => 0 end.

(** [sum(c.values())] *)
Definition counter_total (c : Counter) : nat :=
  fold_right (fun kv acc => snd kv + acc) 0 c.

(** The tokens of a text: [toks] in [_shingles]. *)
Definition shingle_tokens (text : string) : list string :=
  let t := PyStr.lower (PyStr.strip (PyStr.collapse_ws text)) in
  PyStr.split t.

Definition _shingles (text : string) (k : nat) : Counter :=
  let toks := shingle_tokens text in
  let n := Z.to_nat (Z.max 0 (Z.of_nat (List.length toks) - Z.of_nat k + 1)) in
  let grams :=
    map (fun i => PyStr.join " " (firstn k (skipn i toks))) (seq 0 n) in
  Counter_of grams.

(** A str object: [other is text] compares identities, not contents. *)
Record PyObj : Type := {
  addr : nat;
  value : string
}.

(** [sum(min(s[g], ss[g]) for g in s.keys() if g in ss)] *)
Definition common_shingles (s ss : Counter) : nat :=
  fold_right
    (fun kv acc =>
       if dict_mem (fst kv) ss
       then Nat.min (counter_get s (fst kv)) (counter_get ss (fst kv)) + acc
       else acc)
    0 s.

(** One turn of the loop over [corpus] of [novelty_score] *)
Definition overlap_step (text : PyObj) (s : Counter) (overlap : nat)
           (other : PyObj) : nat :=
  if negb (PyStr.truthy (value other)) || (addr other =? addr text)
  then overlap
  else overlap + common_shingles s (_shingles (value other) 4).

Definition novelty_overlap (text : PyObj) (s : Counter) (corpus : list PyObj)
  : nat :=
  fold_left (overlap_step text s) corpus 0.

(** [novelty_score].  The float result is modelled by the rational it
    denotes before rounding. *)
Definition novelty_score (text : PyObj) (corpus : list PyObj) : Q :=
  if negb (PyStr.truthy (value text)) then 0%Q
  else
    let s := _shingles (value text) 4 in
    match s with
    | [] => 0%Q
    | _ :: _ =>
        let total := counter_total s in
        let overlap := novelty_overlap text s corpus in
        (1 / (1 + inject_Z (Z.of_nat overlap)
                  / inject_Z (Z.of_nat (Nat.max total 1))))%Q
    end.

(** * Definitions used by the statements *)

(** ** Ring buffer *)

(** The last [n] elements of a list *)
Definition lastn {A} (n : nat) (l : list A) : list A :=
  skipn (List.length l - n) l.

(** The guard [if q and a] of [memory_add] *)
Definition nonempty_pair (qa : string * string) : bool :=
  PyStr.truthy (fst qa) && PyStr.truthy (snd qa).

(** A run of [memory_add] calls, oldest first *)
Definition memory_run (ops : list (string * string)) (M : Memory) : Memory :=
  fold_left (fun M qa => memory_add (fst qa) (snd qa) M) ops M.

(** Every pair of the buffer came through [memory_add]. *)
Definition Memory_ok (M : Memory) : Prop :=
  Forall (fun qa => nonempty_pair qa = true) M.

(** ** Vote *)

(** A candidate takes part in the vote when its normal form is not empty. *)
Definition votable (raw : string) : bool :=
  PyStr.truthy (_normalize_for_vote raw).

(** The entry of a candidate that is alone in its group *)
Definition single_vote (raw : string) : string * (nat * string) :=
  (_normalize_for_vote raw, (1, raw)).

(** The order of the sort keys, as a proposition *)
Definition key_le (a b : nat * nat) : Prop :=
  fst a < fst b \/ (fst a = fst b /\ snd a <= snd b).

(** ** Counters and shingles *)

(** [d.keys()] *)
Definition dict_keys {V} (d : dict V) : list string := map fst d.

(** No key of a [Counter] built from a list counts 0. *)
Definition counts_positive (c : Counter) : Prop :=
  forall k v, In (k, v) c -> 1 <= v.

(** The sum of [common_shingles], over any part of the entries of [s]. *)
Definition common_over (s ss : Counter) (entries : Counter) : nat :=
  fold_right
    (fun kv acc =>
       if dict_mem (fst kv) ss
       then Nat.min (counter_get s (fst kv)) (counter_get ss (fst kv)) + acc
       else acc)
    0 entries.

(** ** Fast path *)

(** The two guards of [_math_try] *)
Definition allowed_math (expr : string) : bool :=
  PyStr.all_chars (fun c => PyStr.mem_char c _ALLOWED_MATH) expr.

Definition has_operator (expr : string) : bool :=
  PyStr.any_chars (fun op => PyStr.mem_char op expr) "+-*/%".

(** A question matches a stored one when they agree once lowercased. *)
Definition matches (ql : string) (qa : string * string) : bool :=
  String.eqb (PyStr.lower (fst qa)) ql && PyStr.truthy (snd qa).

(** The answer of a stage that uses no provider *)
Definition local_answer (a label : string) (mem : bool) : Answer :=
  {| mode := "single"; answer := a; provider := label;
     providers_used := []; from_memory := mem |}.

(** ** Providers *)

(** The keys of [_PROVIDER_FUNCS] *)
Definition provider_names : list string := dict_keys _PROVIDER_FUNCS.

(** The credential test of each provider, as in its wrapper and in
    [_active_providers]. *)
Definition has_key (w : World) (p : string) : bool :=
  if String.eqb p "openai" then env_set w "OPENAI_API_KEY"
  else if String.eqb p "anthropic" then env_set w "ANTHROPIC_API_KEY"
  else if String.eqb p "google"
       then env_set w "GOOGLE_API_KEY" || env_set w "GEMINI_API_KEY"
  else if String.eqb p "mistral" then env_set w "MISTRAL_API_KEY"
  else if String.eqb p "cohere" then env_set w "COHERE_API_KEY"
  else false.

(** What each wrapper takes out of a payload. *)
Definition extract (p : string) (body : Payload) : option string :=
  match body with
  | Malformed => None
  | Content text => if String.eqb p "anthropic" then None else Some text
  | Parts parts =>
      if String.eqb p "anthropic" || String.eqb p "cohere"
      then or_None (join_text_parts parts)
      else None
  end.

(** The state after one more post to [p] *)
Definition logged (p : string) (st : State) : State :=
  {| MEMORY := MEMORY st; posts := posts st ++ [p] |}.

(** The five wrappers, described at once. *)
Definition wrapper_result (w : World) (p prompt : string) (st : State)
  : Outcome * State :=
  if negb (has_key w p) then (Returned None, st)
  else
    match http_post w p prompt (count_occ string_dec (posts st) p) with
    | TransportError => (Raised, logged p st)
    | Response status_code body =>
        if 400 <=? status_code then (Returned None, logged p st)
        else (Returned (extract p body), logged p st)
    end.

(** The test [if resp:] on what a call gave *)
Definition usable (o : Outcome) : bool :=
  match o with
  | Returned (Some resp) => PyStr.truthy resp
  | _ => false
  end.

(** ** Example inputs *)

(** An environment that sets exactly the variables of [keys] *)
Definition env_of (keys : list string) (k : string) : option string :=
  if str_in k keys then Some "sk-test" else None.

(** A process that has answered nothing yet *)
Definition fresh : State := {| MEMORY := []; posts := [] |}.

(** A buffer that holds one question twice, in two spellings *)
Definition remembered : State :=
  {| MEMORY := [("What is Rust?", "A language");
                ("WHAT IS RUST?", "A systems language");
                ("ping", "pong")];
     posts := [] |}.

(** The text that SymPy prints for the value of evalf, fifteen significant
    digits, on the two examples of the Math stage *)
Definition evalf_printed (expr : string) : option string :=
  if String.eqb expr "6/3" then Some "2.00000000000000"
  else if String.eqb expr "2+2" then Some "4.00000000000000"
  else None.

(** A buffer that holds 50 pairs *)
Definition full_memory : State :=
  {| MEMORY :=
       map (fun i => ("ping", String (ascii_of_nat (48 + i)) EmptyString))
           (seq 0 50);
     posts := [] |}.

(** No credential, and an evaluation that prints fifteen digits *)
Definition world_calc : World :=
  {| getenv := fun _ => None;
     http_post := fun _ _ _ => TransportError;
     sympify_evalf := fun expr =>
       if String.eqb expr "2+2" then Some "4.00000000000000" else None;
     as_completed := fun l => l |}.

(** No credential at all *)
Definition world_no_keys : World :=
  {| getenv := env_of [];
     http_post := fun _ _ _ => Response 200 (Content "never asked");
     sympify_evalf := fun _ => None;
     as_completed := fun l => l |}.

(** openai and anthropic have credentials; openai answers 500 to every
    post, anthropic would answer Paris. *)
Definition world_openai_down : World :=
  {| getenv := env_of ["OPENAI_API_KEY"; "ANTHROPIC_API_KEY"];
     http_post := fun p _ _ =>
       if String.eqb p "openai" then Response 500 Malformed
       else Response 200 (Parts [("text", "Answer: Paris")]);
     sympify_evalf := fun _ => None;
     as_completed := fun l => rev l |}.

(** Only openai has a credential, and it completes with the empty string. *)
Definition world_empty_completion : World :=
  {| getenv := env_of ["OPENAI_API_KEY"];
     http_post := fun _ _ _ => Response 200 (Content "");
     sympify_evalf := fun _ => None;
     as_completed := fun l => l |}.

(** Example pools: a two-token text, two five-token texts, and a pool that
    holds the same str object twice. *)
Definition short_text : PyObj := {| addr := 0; value := "hello world" |}.
Definition long_text : PyObj :=
  {| addr := 1; value := "alpha beta gamma delta epsilon" |}.
Definition long_copy : PyObj :=
  {| addr := 2; value := "alpha beta gamma delta epsilon" |}.
Definition other_text : PyObj :=
  {| addr := 3; value := "one two three four five" |}.
Definition short_copy : PyObj := {| addr := 4; value := "hello world" |}.

(** * More of the code *)

(** ** brain/orchestrator.py: [memory_tail] *)

(** [l[start:]] for a Python int [start]: a negative start counts from the
    end and is clipped at the front. *)
Definition py_slice_from {A} (start : Z) (l : list A) : list A :=
  if (start <? 0)%Z
  then skipn (Z.to_nat (Z.max 0 (Z.of_nat (List.length l) + start))) l
  else skipn (Z.to_nat start) l.

Definition memory_tail (n : Z) (MEMORY : Memory) : Memory :=
  py_slice_from (- n) MEMORY.

(** ** brain/providers.py: the sequential ensemble *)

Module Providers.

Section Builtins.

(** Whether [float(s)] and [int(s)] of Python accept the str [s]; the
    wrappers of this module read their settings at each call. *)
Variable float_ok : string -> bool.
Variable int_ok : string -> bool.

(** [os.getenv(k, d)] *)
Definition getenv_default (w : World) (k d : string) : string :=
  match getenv w k with
  | Some v => v
  | None => d
  end.

(** [_strip] *)
Definition _strip (s : option string) : string :=
  PyStr.strip (match s with Some v => v | None => "" end).

(** The [float] and [int] conversions made while the request body is built *)
Definition settings_ok (w : World) (temp max_tokens : string) : bool :=
  float_ok (getenv_default w temp "0.2")
  && int_ok (getenv_default w max_tokens "1024").

Definition _openai_chat (w : World) (prompt : string) (st : State)
  : Outcome * State :=
  if negb (env_set w "OPENAI_API_KEY") then (Returned None, st)
  else if negb (settings_ok w "OPENAI_TEMP" "OPENAI_MAX_TOKENS")
  then (Raised, st)
  else
    match do_post w "openai" prompt st with
    | (TransportError, st') => (Raised, st')
    | (Response status_code body, st') =>
        if 400 <=? status_code then (Returned None, st')
        else match body with
             | Content text => (Returned (Some text), st')
             | _ => (Returned None, st')
             end
    end.

Definition _anthropic_chat (w : World) (prompt : string) (st : State)
  : Outcome * State :=
  if negb (env_set w "ANTHROPIC_API_KEY") then (Returned None, st)
  else if negb (settings_ok w "ANTHROPIC_TEMP" "ANTHROPIC_MAX_TOKENS")
  then (Raised, st)
  else
    match do_post w "anthropic" prompt st with
    | (TransportError, st') => (Raised, st')
    | (Response status_code body, st') =>
        if 400 <=? status_code then (Returned None, st')
        else match body with
             | Parts parts => (Returned (Some (join_text_parts parts)), st')
             | Content _ => (Returned (Some (join_text_parts [])), st')
             | Malformed => (Returned None, st')
             end
    end.

Definition _google_chat (w : World) (prompt : string) (st : State)
  : Outcome * State :=
  if negb (env_set w "GOOGLE_API_KEY" || env_set w "GEMINI_API_KEY")
  then (Returned None, st)
  else if negb (settings_ok w "GOOGLE_TEMP" "GOOGLE_MAX_TOKENS")
  then (Raised, st)
  else
    match do_post w "google" prompt st with
    | (TransportError, st') => (Raised, st')
    | (Response status_code body, st') =>
        if 400 <=? status_code then (Returned None, st')
        else match body with
             | Content text => (Returned (Some text), st')
             | _ => (Returned None, st')
             end
    end.

Definition _mistral_chat (w : World) (prompt : string) (st : State)
  : Outcome * State :=
  if negb (env_set w "MISTRAL_API_KEY") then (Returned None, st)
  else if negb (settings_ok w "MISTRAL_TEMP" "MISTRAL_MAX_TOKENS")
  then (Raised, st)
  else
    match do_post w "mistral" prompt st with
    | (TransportError, st') => (Raised, st')
    | (Response status_code body, st') =>
        if 400 <=? status_code then (Returned None, st')
        else match body with
             | Content text => (Returned (Some text), st')
             | _ => (Returned None, st')
             end
    end.

Definition _cohere_chat (w : World) (prompt : string) (st : State)
  : Outcome * State :=
  if negb (env_set w "COHERE_API_KEY") then (Returned None, st)
  else if negb (settings_ok w "COHERE_TEMP" "COHERE_MAX_TOKENS")
  then (Raised, st)
  else
    match do_post w "cohere" prompt st with
    | (TransportError, st') => (Raised, st')
    | (Response status_code body, st') =>
        if 400 <=? status_code then (Returned None, st')
        else match body with
             | Content text => (Returned (Some text), st')
             | Parts parts => (Returned (Some (join_text_parts parts)), st')
             | Malformed => (Returned None, st')
             end
    end.

Definition _FUNCS : dict ProviderFunc :=
  [ ("openai", _openai_chat);
    ("anthropic", _anthropic_chat);
    ("google", _google_chat);
    ("mistral", _mistral_chat);
    ("cohere", _cohere_chat) ].

Definition _order (w : World) : list string :=
  let env :=
    getenv_default w "PROVIDER_ORDER" "openai,anthropic,google,mistral,cohere" in
  map PyStr.strip
      (filter (fun p => dict_mem (PyStr.strip p) _FUNCS)
              (PyStr.split_on "," env)).

(** One turn of the loop of [ensemble_chat]: [out] and the state after it *)
Definition chat_try (w : World) (name prompt : string) (st : State)
  : string * State :=
  match dict_get name _FUNCS with
  | Some fn =>
      match fn w prompt st with
      | (Returned r, st1) => (_strip r, st1)
      | (Raised, st1) => ("", st1)
      end
  | None => ("", st)
  end.

Fixpoint chat_loop (w : World) (names : list string) (prompt : string)
         (st : State) : string * State :=
  match names with
  | [] => ("", st)
  | name :: names' =>
      let '(out, st1) := chat_try w name prompt st in
      if PyStr.truthy out then (out, st1)
      else chat_loop w names' prompt st1
  end.

Definition ensemble_chat (w : World) (prompt : string) (st : State)
  : string * State :=
  chat_loop w (_order w) prompt st.

End Builtins.

End Providers.

(** ** apps/api/main.py: [api_ask] *)

(** The prompt of the fallback of [api_ask] *)
Definition ask_prompt (q ctx_text : string) : string :=
  ("Question: " ++ q ++ newline ++ newline ++ "Context (optional):" ++ newline
   ++ ctx_text ++ newline ++ newline ++ "Answer:")%string.

(** [api_ask], giving the answer and the provider of the reply.
    [rag_query q] stands for the texts of [rag.query(q, k=4)], the retrieval
    index being outside the repository code modelled here. *)
Definition api_ask (float_ok int_ok : string -> bool)
           (rag_query : string -> list string)
           (w : World) (message : string) (st : State)
  : (string * string) * State :=
  let q := PyStr.strip message in
  if negb (PyStr.truthy q) then (("Please type a question.", "none"), st)
  else
    let '(local, st1) := answer_question w q None "" st in
    if PyStr.truthy (answer local) then
      ((answer local, provider local),
       set_memory (memory_add q (answer local) (MEMORY st1)) st1)
    else
      let ctx_snips := rag_query q in
      let ctx_text :=
        match ctx_snips with
        | [] => ""
        | _ :: _ => PyStr.join (newline ++ newline)%string ctx_snips
        end in
      let prompt := ask_prompt q ctx_text in
      let '(out, st2) :=
        Providers.ensemble_chat float_ok int_ok w prompt st1 in
      let ans := PyStr.strip out in
      let ans :=
        if PyStr.truthy ans then ans
        else "I don't have an exact answer yet for that." in
      ((ans, "ensemble"), set_memory (memory_add q ans (MEMORY st2)) st2).

(** ** Definitions used by the further statements *)

(** The number of candidates whose normal form is [n] *)
Definition votes (n : string) (candidates : list string) : nat :=
  List.length
    (filter (fun c => String.eqb (_normalize_for_vote c) n) candidates).

(** The first candidate whose normal form is [n] *)
Definition first_raw (n : string) (candidates : list string) : option string :=
  find (fun c => String.eqb (_normalize_for_vote c) n) candidates.

(** What a future holds is a non-empty str *)
Definition usable_at (futures : dict Outcome) (p : string) : bool :=
  match dict_get p futures with
  | Some o => usable o
  | None => false
  end.

(** The answer kept for a provider whose future holds a str *)
Definition kept_answer (futures : dict Outcome) (p : string) : string :=
  match dict_get p futures with
  | Some (Returned (Some resp)) => _strip_answer resp
  | _ => ""
  end.

(** The labels of the answers that used no provider *)
Definition local_labels : list string :=
  ["local-math"; "local-facts"; "local-memory"; "none"].

(** The provider label fits the providers used. *)
Definition label_fits (a : Answer) : Prop :=
  match providers_used a with
  | [] => In (provider a) local_labels
  | [p] => provider a = p
  | _ :: _ :: _ => provider a = "ensemble"
  end.

(** A character that is not whitespace *)
Definition nonspace (c : ascii) : bool := negb (PyStr.isspace c).

(** The single call of a forced provider, when [answer_question] makes
    one: what it gave and the state it left. *)
Definition forced_call (w : World) (q : string)
           (force_provider : option string) (context : string) (st : State)
  : option (Outcome * State) :=
  match force_provider with
  | Some fp =>
      if PyStr.truthy fp
         && str_in fp (_active_providers w (_provider_order w force_provider))
      then Some (call_provider w fp (make_prompt q context) st)
      else None
  | None => None
  end.

(** The state in which the fan-out begins *)
Definition fanout_start (w : World) (q : string)
           (force_provider : option string) (context : string) (st : State)
  : State :=
  match forced_call w q force_provider context st with
  | Some (_, st') => st'
  | None => st
  end.

(** ** Further example inputs *)

(** Every setting parses. *)
Definition accept (s : string) : bool := true.

(** An empty retrieval index *)
Definition no_snippets (q : string) : list string := [].

(** PROVIDER_ORDER names cohere, an unknown provider and openai, with
    blanks around the names; cohere and openai have credentials. *)
Definition world_custom_order : World :=
  {| getenv := fun k =>
       if String.eqb k "PROVIDER_ORDER" then Some " cohere , bogus,openai"
       else env_of ["OPENAI_API_KEY"; "COHERE_API_KEY"] k;
     http_post := fun p _ _ =>
       if String.eqb p "cohere"
       then Response 200 (Parts [("text", "  Bonjour "); ("image", "x")])
       else Response 200 (Content "Hello");
     sympify_evalf := fun _ => None;
     as_completed := fun l => l |}.

(** PROVIDER_ORDER names only unknown providers. *)
Definition world_bad_order : World :=
  {| getenv := fun k =>
       if String.eqb k "PROVIDER_ORDER" then Some "bogus, nope"
       else env_of ["OPENAI_API_KEY"] k;
     http_post := fun _ _ _ => Response 200 (Content "Hello");
     sympify_evalf := fun _ => None;
     as_completed := fun l => l |}.

(** Every call is over by the deadline. *)
Definition on_time (p : string) : bool := false.

(** The call to anthropic is still running at the deadline. *)
Definition anthropic_late (p : string) : bool := String.eqb p "anthropic".

(** * Properties *)

(** ** Short-term memory *)

Lemma truthy_false_iff (s : string) : PyStr.truthy s = false <-> s = "".
Proof. destruct s; simpl; split; congruence. Qed.

Lemma truthy_true_iff (s : string) : PyStr.truthy s = true <-> s <> "".
Proof. destruct s; simpl; split; congruence. Qed.

Lemma lastn_all {A} (n : nat) (l : list A) :
  List.length l <= n -> lastn n l = l.
Proof.
  intros H. unfold lastn.
  replace (List.length l - n) with 0 by lia. reflexivity.
Qed.

Lemma lastn_length {A} (n : nat) (l : list A) :
  List.length (lastn n l) <= n.
Proof. unfold lastn. rewrite length_skipn. lia. Qed.

Lemma lastn_app_lastn {A} (n : nat) (l r : list A) :
  lastn n (lastn n l ++ r) = lastn n (l ++ r).
Proof.
  unfold lastn.
  rewrite length_app, length_skipn, length_app.
  set (k := List.length l - n).
  assert (Hk : k <= List.length l) by (unfold k; lia).
  replace (skipn k l ++ r) with (skipn k (l ++ r)).
  - rewrite skipn_skipn. f_equal. unfold k. lia.
  - rewrite skipn_app. replace (k - List.length l) with 0 by lia. reflexivity.
Qed.

Lemma deque_append_lastn {A} (n : nat) (x : A) (d : list A) :
  0 < n -> List.length d <= n ->
  deque_append n x d = lastn n (d ++ [x]).
Proof.
  intros Hn Hd. unfold deque_append, lastn.
  rewrite length_app. simpl.
  destruct (Nat.leb_spec n (List.length d)) as [Hfull | Hroom].
  - assert (List.length d = n) by lia. subst n.
    replace (List.length d + 1 - List.length d) with 1 by lia.
    destruct d as [| y d']; [simpl in Hn; lia | reflexivity].
  - replace (List.length d + 1 - n) with 0 by lia. reflexivity.
Qed.

Lemma memory_add_lastn (q a : string) (M : Memory) :
  List.length M <= MEMORY_MAXLEN ->
  memory_add q a M =
  lastn MEMORY_MAXLEN (M ++ if nonempty_pair (q, a) then [(q, a)] else []).
Proof.
  intros HM. unfold memory_add, nonempty_pair. simpl.
  destruct (PyStr.truthy q && PyStr.truthy a).
  - apply deque_append_lastn; [unfold MEMORY_MAXLEN; lia | assumption].
  - rewrite app_nil_r. symmetry. apply lastn_all. assumption.
Qed.

Lemma memory_run_lastn (ops : list (string * string)) :
  forall M, List.length M <= MEMORY_MAXLEN ->
  memory_run ops M = lastn MEMORY_MAXLEN (M ++ filter nonempty_pair ops).
Proof.
  induction ops as [| [q a] ops IH]; intros M HM.
  - simpl. rewrite app_nil_r. symmetry. apply lastn_all. assumption.
  - unfold memory_run in *. simpl fold_left. simpl filter.
    rewrite IH.
    + rewrite memory_add_lastn by assumption.
      rewrite lastn_app_lastn.
      destruct (nonempty_pair (q, a)).
      * rewrite <- app_assoc. reflexivity.
      * rewrite app_nil_r. reflexivity.
    + rewrite memory_add_lastn by assumption. apply lastn_length.
Qed.

(** C9: [memory_add q a] leaves the ring buffer as it is when [q] or [a] is
    the empty string; otherwise it appends [(q, a)], dropping the oldest pair
    when the buffer already holds 50; so after any run of calls the buffer
    holds exactly the (at most 50) most recent non-empty pairs. *)
Theorem C9_memory_add_ring_buffer :
  forall (M : Memory) (q a : string) (ops : list (string * string)),
    List.length M <= 50 ->
    (q = "" \/ a = "" -> memory_add q a M = M)
    /\ (q <> "" -> a <> "" -> List.length M < 50 ->
        memory_add q a M = M ++ [(q, a)])
    /\ (q <> "" -> a <> "" -> List.length M = 50 ->
        memory_add q a M = tl M ++ [(q, a)])
    /\ List.length (memory_add q a M) <= 50
    /\ memory_run ops M = lastn 50 (M ++ filter nonempty_pair ops)
    /\ List.length (memory_run ops M) <= 50.
Proof.
  intros M q a ops HM.
  assert (Hrun : memory_run ops M = lastn 50 (M ++ filter nonempty_pair ops))
    by (apply memory_run_lastn; exact HM).
  repeat split.
  - intros [Hq | Ha]; unfold memory_add.
    + subst q. reflexivity.
    + subst a. rewrite andb_false_r. reflexivity.
  - intros Hq Ha Hlen. unfold memory_add, deque_append, MEMORY_MAXLEN.
    apply truthy_true_iff in Hq, Ha. rewrite Hq, Ha. simpl andb.
    destruct (Nat.leb_spec 50 (List.length M)); [lia | reflexivity].
  - intros Hq Ha Hlen. unfold memory_add, deque_append, MEMORY_MAXLEN.
    apply truthy_true_iff in Hq, Ha. rewrite Hq, Ha. simpl andb.
    destruct (Nat.leb_spec 50 (List.length M)); [reflexivity | lia].
  - rewrite memory_add_lastn by exact HM. apply lastn_length.
  - exact Hrun.
  - rewrite Hrun. apply (lastn_length 50).
Qed.

Lemma C9_memory_add_ring_buffer_witness :
  memory_add "" "a" [("q0", "a0")] = [("q0", "a0")]
  /\ memory_add "q1" "a1" [("q0", "a0")] = [("q0", "a0"); ("q1", "a1")]
  /\ memory_run [("q1", "a1"); ("", "x"); ("q2", "a2")] [("q0", "a0")]
     = [("q0", "a0"); ("q1", "a1"); ("q2", "a2")].
Proof.
  assert (Hlen : List.length [("q0", "a0")] <= 50) by (simpl; lia).
  destruct (C9_memory_add_ring_buffer [("q0", "a0")] "" "a"
              [("q1", "a1"); ("", "x"); ("q2", "a2")] Hlen)
    as (Hskip & _ & _ & _ & Hrun & _).
  destruct (C9_memory_add_ring_buffer [("q0", "a0")] "q1" "a1" [] Hlen)
    as (_ & Happend & _).
  split; [| split].
  - apply Hskip. left. reflexivity.
  - apply Happend; [discriminate | discriminate | simpl; lia].
  - exact Hrun.
Defined.

(** ** Vote reconciler *)

Lemma vote_step_skip (counts : Counts) (raw : string) :
  votable raw = false -> vote_step counts raw = counts.
Proof. unfold vote_step, votable. intros ->. reflexivity. Qed.

Lemma vote_counts_all_skipped (candidates : list string) :
  forall counts,
    (forall x, In x candidates -> _normalize_for_vote x = "") ->
    fold_left vote_step candidates counts = counts.
Proof.
  induction candidates as [| c cs IH]; intros counts H; simpl.
  - reflexivity.
  - rewrite vote_step_skip.
    + apply IH. intros x Hx. apply H. right. exact Hx.
    + unfold votable. rewrite (H c); [reflexivity | left; reflexivity].
Qed.

(** C10: when every candidate of a non-empty list normalizes to the empty
    string, [_vote_select] returns the first candidate as it is. *)
Theorem C10_vote_select_all_blank_returns_first :
  forall (first : string) (others : list string),
    (forall x, In x (first :: others) -> _normalize_for_vote x = "") ->
    _vote_select (first :: others) = first.
Proof.
  intros first others H. unfold _vote_select, vote_counts.
  rewrite vote_counts_all_skipped by exact H. reflexivity.
Qed.

Lemma C10_vote_select_all_blank_returns_first_witness :
  _vote_select ["  "; "``"; ""] = "  ".
Proof.
  apply (C10_vote_select_all_blank_returns_first "  " ["``"; ""]).
  intros x [Hx | [Hx | [Hx | []]]]; subst x; reflexivity.
Defined.

(** C3, as stated, fails: the trailing period survives normalization, so
    Paris and paris. do not fall into one group of size 2. *)
Lemma C3_paris_groups_counterexample :
  ~ (_normalize_for_vote "Paris" = _normalize_for_vote "paris."
     /\ exists k raw,
          In (k, (2, raw)) (vote_counts ["Paris"; "paris."; "London"])
          /\ _vote_select ["Paris"; "paris."; "London"] = raw).
Proof.
  intros [Hsame _]. vm_compute in Hsame. discriminate Hsame.
Qed.

(** C3, amended: for the candidates Paris, paris. and London the
    normalization keeps the period, the three candidates form three groups of
    size 1, and the tie is broken by the length of the original text in
    favour of paris., which is returned instead of London. *)
Theorem C3_paris_vote :
  _normalize_for_vote "Paris" = "paris"
  /\ _normalize_for_vote "paris." = "paris."
  /\ vote_counts ["Paris"; "paris."; "London"]
     = [("paris", (1, "Paris")); ("paris.", (1, "paris."));
        ("london", (1, "London"))]
  /\ _vote_select ["Paris"; "paris."; "London"] = "paris.".
Proof. repeat split; reflexivity. Qed.

(** *** The ranking *)

Lemma key_leb_spec (a b : nat * nat) : key_leb a b = true <-> key_le a b.
Proof.
  unfold key_leb, key_le.
  rewrite orb_true_iff, andb_true_iff, Nat.ltb_lt, Nat.eqb_eq, Nat.leb_le.
  reflexivity.
Qed.

Lemma key_le_refl (a : nat * nat) : key_le a a.
Proof. unfold key_le. lia. Qed.

Lemma key_le_trans (a b c : nat * nat) : key_le a b -> key_le b c -> key_le a c.
Proof. unfold key_le. lia. Qed.

Lemma key_le_total (a b : nat * nat) : key_le a b \/ key_le b a.
Proof. unfold key_le. lia. Qed.

Section SortedFacts.
Context {A : Type} (key : A -> nat * nat).

Lemma insert_desc_In (x z : A) (l : list A) :
  In z (insert_desc key x l) <-> z = x \/ In z l.
Proof.
  induction l as [| y l IH]; simpl.
  - intuition congruence.
  - destruct (key_leb (key y) (key x)); simpl.
    + intuition congruence.
    + rewrite IH. intuition congruence.
Qed.

Lemma sorted_desc_In (z : A) (l : list A) :
  In z (sorted_desc key l) <-> In z l.
Proof.
  induction l as [| x l IH]; simpl.
  - reflexivity.
  - rewrite insert_desc_In, IH. intuition congruence.
Qed.

(** The head of the ranking dominates every element. *)
Lemma sorted_desc_head (l : list A) :
  forall top rest,
    sorted_desc key l = top :: rest ->
    forall z, In z l -> key_le (key z) (key top).
Proof.
  induction l as [| x l IH]; intros top rest Hs z Hz.
  - destruct Hz.
  - simpl in Hs.
    destruct (sorted_desc key l) as [| y srt] eqn:Hsl.
    + simpl in Hs. injection Hs as <- <-.
      destruct Hz as [<- | Hz]; [apply key_le_refl |].
      apply (sorted_desc_In z) in Hz. rewrite Hsl in Hz. destruct Hz.
    + simpl in Hs.
      destruct (key_leb (key y) (key x)) eqn:Hyx.
      * injection Hs as <- <-.
        apply key_leb_spec in Hyx.
        destruct Hz as [<- | Hz]; [apply key_le_refl |].
        apply key_le_trans with (key y); [| exact Hyx].
        apply (IH y srt eq_refl). exact Hz.
      * injection Hs as <- <-.
        destruct Hz as [Hxz | Hz].
        -- subst z.
           destruct (key_le_total (key x) (key y)) as [H | H];
             [exact H |].
           apply key_leb_spec in H. congruence.
        -- apply (IH y srt eq_refl). exact Hz.
Qed.
End SortedFacts.

(** *** The counts of candidates that differ under normalization *)

Section DictFacts.
Context {V : Type}.

Lemma dict_set_fresh (k : string) (v : V) (d : dict V) :
  dict_get k d = None -> dict_set k v d = d ++ [(k, v)].
Proof.
  induction d as [| [k' v'] d IH]; simpl; intros H.
  - reflexivity.
  - destruct (String.eqb k' k); [discriminate |].
    rewrite IH by exact H. reflexivity.
Qed.

Lemma dict_get_last (k : string) (v : V) (d : dict V) :
  dict_get k d = None -> dict_get k (d ++ [(k, v)]) = Some v.
Proof.
  induction d as [| [k' v'] d IH]; simpl; intros H.
  - rewrite String.eqb_refl. reflexivity.
  - destruct (String.eqb k' k); [discriminate | apply IH; exact H].
Qed.

Lemma dict_set_last (k : string) (v v' : V) (d : dict V) :
  dict_get k d = None -> dict_set k v' (d ++ [(k, v)]) = d ++ [(k, v')].
Proof.
  induction d as [| [k0 v0] d IH]; simpl; intros H.
  - rewrite String.eqb_refl. reflexivity.
  - destruct (String.eqb k0 k); [discriminate |].
    rewrite IH by exact H. reflexivity.
Qed.

Lemma dict_get_app_other (k k' : string) (v : V) (d : dict V) :
  k <> k' -> dict_get k' (d ++ [(k, v)]) = dict_get k' d.
Proof.
  intros Hne. induction d as [| [k0 v0] d IH]; simpl.
  - destruct (String.eqb_spec k k'); [contradiction | reflexivity].
  - destruct (String.eqb k0 k'); [reflexivity | exact IH].
Qed.
End DictFacts.

Lemma vote_step_fresh (counts : Counts) (raw : string) :
  votable raw = true ->
  dict_get (_normalize_for_vote raw) counts = None ->
  vote_step counts raw = counts ++ [single_vote raw].
Proof.
  intros Hv Hfresh. unfold vote_step, votable in *. rewrite Hv. simpl negb.
  unfold dict_mem. rewrite Hfresh. cbv iota.
  rewrite dict_set_fresh by exact Hfresh.
  rewrite dict_get_last by exact Hfresh.
  rewrite dict_set_last by exact Hfresh.
  reflexivity.
Qed.

Lemma vote_counts_distinct (candidates : list string) :
  forall counts,
    NoDup (map _normalize_for_vote (filter votable candidates)) ->
    (forall c, In c candidates -> votable c = true ->
               dict_get (_normalize_for_vote c) counts = None) ->
    fold_left vote_step candidates counts
    = counts ++ map single_vote (filter votable candidates).
Proof.
  induction candidates as [| c cs IH]; intros counts Hnd Hfresh; simpl.
  - rewrite app_nil_r. reflexivity.
  - destruct (votable c) eqn:Hv.
    + simpl in Hnd. rewrite Hv in Hnd. simpl in Hnd.
      apply NoDup_cons_iff in Hnd. destruct Hnd as [Hnotin Hnd].
      rewrite vote_step_fresh; [| exact Hv | apply Hfresh; [left; reflexivity | exact Hv]].
      rewrite IH.
      * simpl. rewrite <- app_assoc. reflexivity.
      * exact Hnd.
      * intros c' Hc' Hv'. unfold single_vote. rewrite dict_get_app_other.
        -- apply Hfresh; [right; exact Hc' | exact Hv'].
        -- intros Heq. apply Hnotin. rewrite Heq.
           apply in_map. apply filter_In. split; assumption.
    + rewrite vote_step_skip by exact Hv.
      simpl in Hnd. rewrite Hv in Hnd.
      apply IH; [exact Hnd |].
      intros c' Hc' Hv'. apply Hfresh; [right; exact Hc' | exact Hv'].
Qed.

(** Dropping the candidates that take no part keeps the normal forms
    distinct. *)
Lemma votable_normal_forms_distinct (candidates : list string) :
  NoDup (map _normalize_for_vote candidates) ->
  NoDup (map _normalize_for_vote (filter votable candidates)).
Proof.
  induction candidates as [| c cs IH]; simpl; intros Hnd.
  - constructor.
  - inversion Hnd as [| n ns Hfresh Hrest]; subst.
    destruct (votable c); simpl; [| apply IH; exact Hrest].
    constructor; [| apply IH; exact Hrest].
    intros Hin. apply Hfresh.
    apply in_map_iff in Hin. destruct Hin as (y & Hy & Hin).
    apply filter_In in Hin. rewrite <- Hy. apply in_map. apply Hin.
Qed.

(** The winner among candidates that all differ under normalization. *)
Lemma vote_select_distinct (candidates : list string) :
  NoDup (map _normalize_for_vote (filter votable candidates)) ->
  (exists c, In c candidates /\ votable c = true) ->
  In (_vote_select candidates) candidates
  /\ votable (_vote_select candidates) = true
  /\ forall c, In c candidates -> votable c = true ->
               String.length c <= String.length (_vote_select candidates).
Proof.
  intros Hnd (c0 & Hc0 & Hv0).
  assert (Hcounts : vote_counts candidates
                    = map single_vote (filter votable candidates)).
  { unfold vote_counts. rewrite vote_counts_distinct; [reflexivity | exact Hnd |].
    intros; reflexivity. }
  unfold _vote_select.
  destruct candidates as [| first others]; [destruct Hc0 |].
  rewrite Hcounts.
  set (cs := first :: others) in *.
  destruct (sorted_desc vote_key (map single_vote (filter votable cs)))
    as [| top rest] eqn:Hs.
  - exfalso.
    assert (Hin : In (single_vote c0)
                     (sorted_desc vote_key (map single_vote (filter votable cs)))).
    { apply sorted_desc_In. apply in_map. apply filter_In. split; assumption. }
    rewrite Hs in Hin. destruct Hin.
  - assert (Htop : In top (map single_vote (filter votable cs))).
    { apply (sorted_desc_In vote_key). rewrite Hs. left. reflexivity. }
    apply in_map_iff in Htop. destruct Htop as (w & Hw & Hwin).
    apply filter_In in Hwin. destruct Hwin as [Hwin Hwv].
    subst top. simpl.
    split; [exact Hwin | split; [exact Hwv |]].
    intros c Hc Hv.
    assert (Hle : key_le (vote_key (single_vote c)) (vote_key (single_vote w))).
    { apply (sorted_desc_head vote_key _ _ _ Hs).
      apply in_map. apply filter_In. split; assumption. }
    unfold key_le, vote_key, single_vote in Hle. simpl in Hle. lia.
Qed.

(** C6, as stated, fails: a candidate whose normal form is empty takes no
    part in the vote, however long it is. *)
Lemma C6_longest_counterexample :
  NoDup (map _normalize_for_vote ["``"; "A"])
  /\ (forall kv, In kv (vote_counts ["``"; "A"]) -> fst (snd kv) = 1)
  /\ _vote_select ["``"; "A"] = "A"
  /\ String.length (_vote_select ["``"; "A"]) < String.length "``".
Proof.
  split; [| split; [| split]].
  - vm_compute. repeat constructor; simpl; intuition discriminate.
  - intros kv Hkv. vm_compute in Hkv.
    destruct Hkv as [<- | []]. reflexivity.
  - reflexivity.
  - vm_compute. lia.
Qed.

(** C6, amended: for every candidate list with no duplicates under
    normalization, the reconciler returns, unmodified, a candidate of the
    list that is the longest among the candidates whose normal form is not
    empty (provided there is one). *)
Theorem C6_vote_select_longest_votable :
  forall candidates : list string,
    NoDup (map _normalize_for_vote candidates) ->
    (exists c, In c candidates /\ _normalize_for_vote c <> "") ->
    In (_vote_select candidates) candidates
    /\ _normalize_for_vote (_vote_select candidates) <> ""
    /\ forall c, In c candidates -> _normalize_for_vote c <> "" ->
                 String.length c <= String.length (_vote_select candidates).
Proof.
  intros candidates Hnd (c0 & Hc0 & Hn0).
  destruct (vote_select_distinct candidates) as (Hin & Hv & Hmax).
  - apply votable_normal_forms_distinct. exact Hnd.
  - exists c0. split; [exact Hc0 |]. apply truthy_true_iff. exact Hn0.
  - split; [exact Hin | split].
    + apply truthy_true_iff. exact Hv.
    + intros c Hc Hn. apply Hmax; [exact Hc |]. apply truthy_true_iff. exact Hn.
Qed.

Lemma C6_vote_select_longest_votable_witness :
  _vote_select ["A"; "AB"; "ABC"] = "ABC"
  /\ In (_vote_select ["A"; "AB"; "ABC"]) ["A"; "AB"; "ABC"]
  /\ String.length "ABC" <= String.length (_vote_select ["A"; "AB"; "ABC"]).
Proof.
  assert (Hnd : NoDup (map _normalize_for_vote ["A"; "AB"; "ABC"])).
  { vm_compute. repeat constructor; simpl; intuition discriminate. }
  assert (Hex : exists c, In c ["A"; "AB"; "ABC"] /\ _normalize_for_vote c <> "").
  { exists "A". split; [left; reflexivity | vm_compute; discriminate]. }
  destruct (C6_vote_select_longest_votable ["A"; "AB"; "ABC"] Hnd Hex)
    as (Hin & _ & Hmax).
  split; [reflexivity | split; [exact Hin |]].
  apply Hmax; [right; right; left; reflexivity | vm_compute; discriminate].
Defined.

(** ** Novelty score *)

Lemma dict_get_None_keys {V} (k : string) (d : dict V) :
  dict_get k d = None <-> ~ In k (dict_keys d).
Proof.
  induction d as [| [k' v] d IH]; simpl.
  - intuition.
  - destruct (String.eqb_spec k' k) as [-> | Hne].
    + split; [discriminate | intros H; exfalso; apply H; left; reflexivity].
    + rewrite IH. intuition.
Qed.

Lemma dict_set_keys {V} (k : string) (v : V) (d : dict V) :
  dict_keys (dict_set k v d)
  = if dict_mem k d then dict_keys d else dict_keys d ++ [k].
Proof.
  unfold dict_mem.
  induction d as [| [k' v'] d IH]; simpl.
  - reflexivity.
  - destruct (String.eqb k' k); simpl.
    + reflexivity.
    + rewrite IH. destruct (dict_get k d); reflexivity.
Qed.

Lemma counter_add_keys_NoDup (c : Counter) (g : string) :
  NoDup (dict_keys c) -> NoDup (dict_keys (counter_add c g)).
Proof.
  intros Hnd. unfold counter_add.
  destruct (dict_get g c) as [n |] eqn:Hg; rewrite dict_set_keys;
    unfold dict_mem; rewrite Hg.
  - exact Hnd.
  - apply dict_get_None_keys in Hg.
    apply NoDup_rev in Hnd. rewrite <- (rev_involutive (dict_keys c ++ [g])).
    apply NoDup_rev. rewrite rev_app_distr. simpl.
    constructor; [| exact Hnd].
    intros Hin. apply Hg. apply in_rev. exact Hin.
Qed.

Lemma counter_add_nonempty (c : Counter) (g : string) : counter_add c g <> [].
Proof.
  unfold counter_add.
  destruct (dict_get g c); destruct c as [| [k v] c]; simpl;
    try discriminate; destruct (String.eqb k g); discriminate.
Qed.

Lemma Counter_fold_keys_NoDup (grams : list string) :
  forall c, NoDup (dict_keys c) ->
            NoDup (dict_keys (fold_left counter_add grams c)).
Proof.
  induction grams as [| g gs IH]; intros c Hc; simpl.
  - exact Hc.
  - apply IH. apply counter_add_keys_NoDup. exact Hc.
Qed.

Lemma Counter_fold_nonempty (grams : list string) :
  forall c, c <> [] -> fold_left counter_add grams c <> [].
Proof.
  induction grams as [| g gs IH]; intros c Hc; simpl.
  - exact Hc.
  - apply IH. apply counter_add_nonempty.
Qed.

Lemma Counter_of_keys_NoDup (grams : list string) :
  NoDup (dict_keys (Counter_of grams)).
Proof. apply Counter_fold_keys_NoDup. constructor. Qed.

Lemma Counter_of_nonempty (grams : list string) :
  grams <> [] -> Counter_of grams <> [].
Proof.
  destruct grams as [| g gs]; [congruence |]. intros _.
  unfold Counter_of. simpl. apply Counter_fold_nonempty.
  apply counter_add_nonempty.
Qed.

(** In a dict with distinct keys every entry is the one its key finds. *)
Lemma dict_get_entry {V} (d : dict V) :
  NoDup (dict_keys d) ->
  forall k v, In (k, v) d -> dict_get k d = Some v.
Proof.
  induction d as [| [k' v'] d IH]; simpl; intros Hnd k v Hin.
  - destruct Hin.
  - apply NoDup_cons_iff in Hnd. destruct Hnd as [Hfresh Hnd].
    destruct Hin as [Heq | Hin].
    + injection Heq as -> ->. rewrite String.eqb_refl. reflexivity.
    + destruct (String.eqb_spec k' k) as [-> | Hne].
      * exfalso. apply Hfresh. apply (in_map fst _ _ Hin).
      * apply IH; assumption.
Qed.

Lemma common_over_self (s : Counter) (entries : Counter) :
  (forall k v, In (k, v) entries -> dict_get k s = Some v) ->
  common_over s s entries = counter_total entries.
Proof.
  induction entries as [| [k v] entries IH]; intros H; simpl.
  - reflexivity.
  - unfold dict_mem, counter_get.
    rewrite (H k v) by (left; reflexivity).
    rewrite Nat.min_id. f_equal.
    apply IH. intros k' v' Hin. apply H. right. exact Hin.
Qed.

Lemma common_shingles_self (s : Counter) :
  NoDup (dict_keys s) -> common_shingles s s = counter_total s.
Proof.
  intros Hnd. apply (common_over_self s s). apply dict_get_entry. exact Hnd.
Qed.

Lemma overlap_fold_ge (text : PyObj) (s : Counter) (corpus : list PyObj) :
  forall acc, acc <= fold_left (overlap_step text s) corpus acc.
Proof.
  induction corpus as [| o os IH]; intros acc; simpl.
  - lia.
  - etransitivity; [| apply IH]. unfold overlap_step.
    destruct (negb (PyStr.truthy (value o)) || (addr o =? addr text)); lia.
Qed.

Lemma overlap_fold_counts (text : PyObj) (s : Counter) (corpus : list PyObj)
      (other : PyObj) :
  In other corpus ->
  PyStr.truthy (value other) = true ->
  addr other <> addr text ->
  forall acc,
    acc + common_shingles s (_shingles (value other) 4)
    <= fold_left (overlap_step text s) corpus acc.
Proof.
  intros Hin Ht Ha.
  induction corpus as [| o os IH]; intros acc; simpl.
  - destruct Hin.
  - destruct Hin as [-> | Hin].
    + etransitivity; [| apply overlap_fold_ge].
      unfold overlap_step. rewrite Ht.
      apply Nat.eqb_neq in Ha. rewrite Ha. simpl. lia.
    + etransitivity; [| apply (IH Hin)].
      unfold overlap_step.
      destruct (negb (PyStr.truthy (value o)) || (addr o =? addr text)); lia.
Qed.

Lemma overlap_fold_zero (text : PyObj) (s : Counter) (corpus : list PyObj) :
  (forall other, In other corpus -> addr other <> addr text ->
                 common_shingles s (_shingles (value other) 4) = 0) ->
  forall acc, fold_left (overlap_step text s) corpus acc = acc.
Proof.
  induction corpus as [| o os IH]; intros H acc; simpl.
  - reflexivity.
  - rewrite IH by (intros; apply H; [right |]; assumption).
    unfold overlap_step.
    destruct (Nat.eqb_spec (addr o) (addr text)) as [Heq | Hne].
    + rewrite orb_true_r. reflexivity.
    + rewrite (H o (or_introl eq_refl) Hne).
      destruct (negb (PyStr.truthy (value o))); simpl; lia.
Qed.

Lemma shingles_nonempty (text : string) :
  4 <= List.length (shingle_tokens text) -> _shingles text 4 <> [].
Proof.
  intros Hlen. unfold _shingles. apply Counter_of_nonempty.
  set (toks := shingle_tokens text) in *.
  destruct (Z.to_nat (Z.max 0 (Z.of_nat (List.length toks) - Z.of_nat 4 + 1)))
    as [| n] eqn:Hn.
  - lia.
  - simpl. discriminate.
Qed.

Lemma four_tokens_truthy (text : string) :
  4 <= List.length (shingle_tokens text) -> PyStr.truthy text = true.
Proof.
  destruct text; [simpl; lia | reflexivity].
Qed.

Lemma dict_set_In {V} (k0 : string) (v0 : V) (d : dict V) :
  forall k v, In (k, v) (dict_set k0 v0 d) -> v = v0 \/ In (k, v) d.
Proof.
  induction d as [| [k' v'] d IH]; simpl; intros k v Hin.
  - destruct Hin as [Heq | []]. injection Heq as _ <-. left. reflexivity.
  - destruct (String.eqb k' k0); simpl in Hin.
    + destruct Hin as [Heq | Hin].
      * injection Heq as _ <-. left. reflexivity.
      * right. right. exact Hin.
    + destruct Hin as [Heq | Hin].
      * right. left. exact Heq.
      * destruct (IH k v Hin) as [-> | Hd]; [left; reflexivity |].
        right. right. exact Hd.
Qed.

Lemma counter_add_positive (c : Counter) (g : string) :
  counts_positive c -> counts_positive (counter_add c g).
Proof.
  intros Hc k v Hin. unfold counter_add in Hin.
  destruct (dict_get g c) as [n |];
    apply dict_set_In in Hin; destruct Hin as [-> | Hin];
    try lia; apply (Hc k v Hin).
Qed.

Lemma Counter_of_positive (grams : list string) :
  counts_positive (Counter_of grams).
Proof.
  unfold Counter_of.
  assert (H : forall c, counts_positive c ->
                        counts_positive (fold_left counter_add grams c)).
  { induction grams as [| g gs IH]; intros c Hc; simpl.
    - exact Hc.
    - apply IH. apply counter_add_positive. exact Hc. }
  apply H. intros k v [].
Qed.

Lemma counter_total_pos (c : Counter) :
  c <> [] -> counts_positive c -> 1 <= counter_total c.
Proof.
  destruct c as [| [k v] c]; [congruence |].
  intros _ H. simpl. specialize (H k v (or_introl eq_refl)). lia.
Qed.

(** The value of [novelty_score] on a text with at least four tokens. *)
Lemma shingles_empty (text : string) :
  List.length (shingle_tokens text) < 4 -> _shingles text 4 = [].
Proof.
  intros Hlt. unfold _shingles.
  replace (Z.to_nat (Z.max 0 (Z.of_nat (List.length (shingle_tokens text))
                              - Z.of_nat 4 + 1)))
    with 0 by lia.
  reflexivity.
Qed.

Lemma novelty_few_tokens (text : PyObj) (corpus : list PyObj) :
  List.length (shingle_tokens (value text)) < 4 ->
  novelty_score text corpus = 0%Q.
Proof.
  intros Hlt. unfold novelty_score.
  destruct (negb (PyStr.truthy (value text))); [reflexivity |].
  rewrite shingles_empty by exact Hlt. reflexivity.
Qed.

Lemma novelty_score_value (text : PyObj) (corpus : list PyObj) :
  4 <= List.length (shingle_tokens (value text)) ->
  novelty_score text corpus
  = (1 / (1 + inject_Z (Z.of_nat
                          (novelty_overlap text (_shingles (value text) 4) corpus))
            / inject_Z (Z.of_nat
                          (Nat.max (counter_total (_shingles (value text) 4)) 1))))%Q.
Proof.
  intros Hlen. unfold novelty_score.
  rewrite (four_tokens_truthy _ Hlen). simpl negb. cbv iota.
  pose proof (shingles_nonempty _ Hlen) as Hne.
  destruct (_shingles (value text) 4) as [| e es] eqn:Hs; [congruence |].
  reflexivity.
Qed.

Lemma novelty_one (o t : nat) :
  o = 0 -> (1 / (1 + inject_Z (Z.of_nat o) / inject_Z (Z.of_nat t)) == 1)%Q.
Proof.
  intros ->. simpl Z.of_nat.
  assert (H : (inject_Z 0 / inject_Z (Z.of_nat t) == 0)%Q).
  { unfold Qdiv. apply Qmult_0_l. }
  rewrite H. reflexivity.
Qed.

Lemma novelty_below_one (o t : nat) :
  1 <= t -> t <= o ->
  (1 / (1 + inject_Z (Z.of_nat o) / inject_Z (Z.of_nat t)) < 1)%Q.
Proof.
  intros Ht Hto.
  assert (Hpos : (0 < inject_Z (Z.of_nat t))%Q).
  { change 0%Q with (inject_Z 0). rewrite <- Zlt_Qlt. lia. }
  assert (Hx : (1 <= inject_Z (Z.of_nat o) / inject_Z (Z.of_nat t))%Q).
  { apply Qle_shift_div_l; [exact Hpos |].
    rewrite Qmult_1_l. rewrite <- Zle_Qle. lia. }
  set (x := (inject_Z (Z.of_nat o) / inject_Z (Z.of_nat t))%Q) in *.
  apply Qlt_shift_div_r.
  - apply Qlt_le_trans with (1 + 1)%Q; [reflexivity |].
    apply Qplus_le_r. exact Hx.
  - rewrite Qmult_1_l.
    apply Qlt_le_trans with (1 + 1)%Q; [reflexivity |].
    apply Qplus_le_r. exact Hx.
Qed.

(** C8, as stated, fails.  A non-empty text with fewer than four tokens has
    no 4-gram, so it overlaps with nothing and still scores 0; an entry that
    is the very same object as the scored text is skipped like the text
    itself, so text equal to another entry of the pool does not always lower
    the score; and a text that is a copy of another entry is not scored
    below a zero-overlap text of fewer than four tokens. *)
Lemma C8_novelty_counterexample :
  (value short_text <> ""
   /\ (forall other, In other [short_text; long_text] ->
         common_shingles (_shingles (value short_text) 4)
                         (_shingles (value other) 4) = 0)
   /\ ~ (novelty_score short_text [short_text; long_text] == 1)%Q)
  /\ ~ (novelty_score long_text [long_text; long_text; other_text]
        < novelty_score other_text [long_text; long_text; other_text])%Q
  /\ ((forall other, In other [long_text; long_copy; short_text] ->
         common_shingles (_shingles (value short_text) 4)
                         (_shingles (value other) 4) = 0)
      /\ value long_copy = value long_text
      /\ addr long_copy <> addr long_text
      /\ ~ (novelty_score long_text [long_text; long_copy; short_text]
            < novelty_score short_text [long_text; long_copy; short_text])%Q).
Proof.
  split; [split; [| split] | split; [| split; [| split; [| split]]]].
  - discriminate.
  - intros other [<- | [<- | []]]; reflexivity.
  - vm_compute. discriminate.
  - vm_compute. discriminate.
  - intros other [<- | [<- | [<- | []]]]; reflexivity.
  - reflexivity.
  - simpl. discriminate.
  - vm_compute. discriminate.
Qed.

(** C8, amended: a text with fewer than four tokens scores 0 whatever the
    pool; a candidate text with at least four tokens whose 4-gram shingles
    share nothing with any other object of the pool scores exactly 1; and
    any candidate whose text equals that of another, distinct object of the
    pool scores strictly lower than such a candidate in the same pool. *)
Theorem C8_novelty_score :
  forall (text : PyObj) (corpus : list PyObj),
    (List.length (shingle_tokens (value text)) < 4 ->
     novelty_score text corpus = 0%Q)
    /\ (4 <= List.length (shingle_tokens (value text)) ->
        (forall other, In other corpus -> addr other <> addr text ->
           common_shingles (_shingles (value text) 4)
                           (_shingles (value other) 4) = 0) ->
        (novelty_score text corpus == 1)%Q
        /\ forall dup other : PyObj,
             In other corpus -> addr other <> addr dup ->
             value other = value dup ->
             (novelty_score dup corpus < novelty_score text corpus)%Q).
Proof.
  intros text corpus. split; [apply novelty_few_tokens |].
  intros Hlen Hzero.
  assert (Hone : (novelty_score text corpus == 1)%Q).
  { rewrite novelty_score_value by exact Hlen.
    apply novelty_one. unfold novelty_overlap.
    apply overlap_fold_zero. exact Hzero. }
  split; [exact Hone |].
  intros dup other Hin Haddr Hval.
  rewrite Hone.
  destruct (Nat.lt_ge_cases (List.length (shingle_tokens (value dup))) 4)
    as [Hfew | Hdup].
  { rewrite (novelty_few_tokens dup corpus Hfew). reflexivity. }
  rewrite novelty_score_value by exact Hdup.
  set (s := _shingles (value dup) 4).
  assert (Htotal : 1 <= counter_total s).
  { apply counter_total_pos.
    - apply shingles_nonempty. exact Hdup.
    - apply Counter_of_positive. }
  apply novelty_below_one; [lia |].
  replace (Nat.max (counter_total s) 1) with (counter_total s) by lia.
  rewrite <- (common_shingles_self s) by apply Counter_of_keys_NoDup.
  unfold novelty_overlap.
  etransitivity;
    [| apply (overlap_fold_counts dup s corpus other Hin);
       [rewrite Hval; apply four_tokens_truthy; exact Hdup | exact Haddr]].
  rewrite Hval. fold s. simpl. lia.
Qed.

Lemma C8_novelty_score_witness :
  novelty_score short_text [long_text; short_text; short_copy; other_text]
  = 0%Q
  /\ (novelty_score other_text [long_text; long_copy; other_text] == 1)%Q
  /\ (novelty_score long_text [long_text; long_copy; other_text]
      < novelty_score other_text [long_text; long_copy; other_text])%Q
  /\ (novelty_score short_text [short_text; short_copy; other_text]
      < novelty_score other_text [short_text; short_copy; other_text])%Q.
Proof.
  assert (Hlen : 4 <= List.length (shingle_tokens (value other_text)))
    by (vm_compute; lia).
  assert (Hzero : forall other,
             In other [long_text; long_copy; other_text] ->
             addr other <> addr other_text ->
             common_shingles (_shingles (value other_text) 4)
                             (_shingles (value other) 4) = 0).
  { intros other [<- | [<- | [<- | []]]] Ha;
      [reflexivity | reflexivity | exfalso; apply Ha; reflexivity]. }
  assert (Hzero' : forall other,
             In other [short_text; short_copy; other_text] ->
             addr other <> addr other_text ->
             common_shingles (_shingles (value other_text) 4)
                             (_shingles (value other) 4) = 0).
  { intros other [<- | [<- | [<- | []]]] Ha;
      [reflexivity | reflexivity | exfalso; apply Ha; reflexivity]. }
  destruct (C8_novelty_score short_text
              [long_text; short_text; short_copy; other_text])
    as [Hfew _].
  destruct (C8_novelty_score other_text [long_text; long_copy; other_text])
    as [_ Hfull].
  destruct (Hfull Hlen Hzero) as [Hone Hlow].
  destruct (C8_novelty_score other_text [short_text; short_copy; other_text])
    as [_ Hfull'].
  destruct (Hfull' Hlen Hzero') as [_ Hlow'].
  split; [apply Hfew; vm_compute; lia |].
  split; [exact Hone |].
  split.
  - apply (Hlow long_text long_copy).
    + right. left. reflexivity.
    + simpl. discriminate.
    + reflexivity.
  - apply (Hlow' short_text short_copy).
    + right. left. reflexivity.
    + simpl. discriminate.
    + reflexivity.
Defined.

(** ** Math stage *)

Lemma endswith_two_zeros (digits : string) :
  PyStr.endswith ".0" (digits ++ "00")%string = false.
Proof.
  induction digits as [| c digits IH]; [reflexivity |].
  cbn [append PyStr.endswith]. rewrite IH, orb_false_r.
  apply String.eqb_neq. intros H. injection H as _ Hrest.
  destruct digits as [| c' digits]; [discriminate Hrest |].
  injection Hrest as _ Hrest. destruct digits; discriminate Hrest.
Qed.

Lemma math_try_truthy (evalf : string -> option string) (expr : string) :
  _math_try evalf expr <> "" -> PyStr.truthy expr = true.
Proof.
  unfold _math_try. destruct (PyStr.truthy expr); [reflexivity |].
  simpl. congruence.
Qed.

(** C2: the strip of a final period and zero misses the text that the
    evaluation prints.  The value of evalf is printed with fifteen
    significant digits, 6/3 as 2.00000000000000 and 2+2 as 4.00000000000000;
    such a text ends in two zeros, the test for a final period and zero
    fails on it, and the Math stage returns the text as printed, zeros
    included, where the claim tells 2 and 4. *)
Theorem C2_math_try_keeps_printed_zeros :
  forall (evalf : string -> option string) (expr digits : string),
    allowed_math expr = true ->
    has_operator expr = true ->
    evalf expr = Some (digits ++ "00")%string ->
    _math_try evalf expr = (digits ++ "00")%string.
Proof.
  intros evalf expr digits Hall Hop Hval.
  assert (Ht : PyStr.truthy expr = true).
  { destruct expr; [discriminate Hop | reflexivity]. }
  unfold _math_try. fold (allowed_math expr). fold (has_operator expr).
  rewrite Ht, Hall, Hop. simpl andb. cbv iota.
  rewrite Hval, endswith_two_zeros. reflexivity.
Qed.

Lemma C2_math_try_keeps_printed_zeros_witness :
  _math_try evalf_printed "6/3" = "2.00000000000000"
  /\ _math_try evalf_printed "2+2" = "4.00000000000000".
Proof.
  split.
  - apply (C2_math_try_keeps_printed_zeros evalf_printed "6/3"
             "2.000000000000"); reflexivity.
  - apply (C2_math_try_keeps_printed_zeros evalf_printed "2+2"
             "4.000000000000"); reflexivity.
Defined.

(** ** Fast path *)

Lemma memory_add_ok (q a : string) (M : Memory) :
  Memory_ok M -> Memory_ok (memory_add q a M).
Proof.
  intros HM. unfold memory_add.
  destruct (PyStr.truthy q && PyStr.truthy a) eqn:Hqa; [| exact HM].
  unfold deque_append, Memory_ok in *.
  destruct (MEMORY_MAXLEN <=? List.length M).
  - apply Forall_app. split.
    + destruct M as [| x M]; [constructor |]. simpl.
      apply Forall_inv_tail in HM. exact HM.
    + constructor; [exact Hqa | constructor].
  - apply Forall_app. split; [exact HM |].
    constructor; [exact Hqa | constructor].
Qed.

Lemma lower_truthy (s : string) : PyStr.truthy (PyStr.lower s) = PyStr.truthy s.
Proof. destruct s; reflexivity. Qed.

Lemma memory_scan_found (l : Memory) (ql aa : string) :
  memory_scan l ql = Some aa ->
  exists newer qq older,
    l = newer ++ (qq, aa) :: older
    /\ PyStr.lower qq = ql
    /\ forallb (fun qa => negb (matches ql qa)) newer = true.
Proof.
  induction l as [| [qq0 aa0] l IH]; simpl; intros H.
  - discriminate.
  - destruct (String.eqb (PyStr.lower qq0) ql && PyStr.truthy aa0) eqn:Hm.
    + injection H as <-. exists [], qq0, l.
      apply andb_true_iff in Hm. destruct Hm as [Hq _].
      apply String.eqb_eq in Hq. repeat split; assumption.
    + destruct (IH H) as (newer & qq & older & -> & Hq & Hnone).
      exists ((qq0, aa0) :: newer), qq, older.
      repeat split; [exact Hq |].
      simpl. unfold matches at 1. simpl. rewrite Hm. exact Hnone.
Qed.

Lemma memory_scan_hit (l : Memory) (ql : string) :
  (exists qa, In qa l /\ matches ql qa = true) ->
  exists aa, memory_scan l ql = Some aa.
Proof.
  induction l as [| [qq0 aa0] l IH]; simpl; intros (qa & Hin & Hm).
  - destruct Hin.
  - destruct (String.eqb (PyStr.lower qq0) ql && PyStr.truthy aa0) eqn:Hm0.
    + exists aa0. reflexivity.
    + destruct Hin as [<- | Hin].
      * unfold matches in Hm. simpl in Hm. congruence.
      * apply IH. exists qa. split; assumption.
Qed.

Lemma facts_scan_nonempty (ql v : string) :
  facts_scan FACTS ql = Some v -> PyStr.truthy v = true /\ PyStr.truthy ql = true.
Proof.
  destruct ql as [| c ql]; [discriminate |].
  unfold FACTS, facts_scan.
  repeat match goal with
         | |- context [PyStr.contains ?k ?s] => destruct (PyStr.contains k s)
         end;
    intros H; try discriminate; injection H as <-; split; reflexivity.
Qed.

Lemma capital_lookup_nonempty (ql v : string) :
  capital_lookup ql = Some v -> PyStr.truthy v = true /\ PyStr.truthy ql = true.
Proof.
  destruct ql as [| c ql]; [discriminate |].
  unfold capital_lookup.
  destruct (PyStr.contains "capital" (String c ql)
            && PyStr.contains " of " (String c ql)); [| discriminate].
  destruct (capital_search (String c ql)) as [g2 |]; [| discriminate].
  destruct (dict_get (PyStr.strip g2) _CAPITAL_OF) as [a |]; [| discriminate].
  destruct (PyStr.truthy a) eqn:Ha; [| discriminate].
  intros H. injection H as <-. split; [exact Ha | reflexivity].
Qed.

Lemma memory_add_appends (q a : string) (M : Memory) :
  PyStr.truthy q = true -> PyStr.truthy a = true ->
  exists older,
    memory_add q a M = older ++ [(q, a)]
    /\ (List.length M < 50 -> older = M)
    /\ (50 <= List.length M -> older = tl M).
Proof.
  intros Hq Ha. unfold memory_add, deque_append, MEMORY_MAXLEN.
  rewrite Hq, Ha. simpl andb. cbv iota.
  destruct (Nat.leb_spec 50 (List.length M)) as [Hfull | Hroom].
  - exists (tl M). split; [reflexivity | split; [lia | reflexivity]].
  - exists M. split; [reflexivity | split; [reflexivity | lia]].
Qed.

Lemma memory_lookup_found (M : Memory) (ql aa : string) :
  Memory_ok M ->
  memory_lookup M ql = Some aa ->
  exists older qq newer,
    M = older ++ (qq, aa) :: newer
    /\ PyStr.lower qq = ql
    /\ forall qa, In qa newer -> PyStr.lower (fst qa) <> ql.
Proof.
  intros Hok H. unfold memory_lookup in H.
  destruct (memory_scan_found _ _ _ H) as (newer & qq & older & Hrev & Hq & Hnone).
  exists (rev older), qq, (rev newer).
  assert (HM : M = rev older ++ (qq, aa) :: rev newer).
  { rewrite <- (rev_involutive M), Hrev, rev_app_distr. simpl.
    rewrite <- app_assoc. reflexivity. }
  split; [exact HM | split; [exact Hq |]].
  intros qa Hin Heq.
  apply in_rev in Hin.
  rewrite forallb_forall in Hnone. specialize (Hnone qa Hin).
  assert (Hne : nonempty_pair qa = true).
  { unfold Memory_ok in Hok. rewrite Forall_forall in Hok. apply Hok.
    rewrite HM. apply in_or_app. right. right. apply in_rev.
    rewrite rev_involutive. exact Hin. }
  unfold matches in Hnone. unfold nonempty_pair in Hne.
  apply andb_true_iff in Hne. destruct Hne as [_ Ha].
  rewrite Ha, andb_true_r in Hnone.
  apply negb_true_iff in Hnone. apply String.eqb_neq in Hnone.
  contradiction.
Qed.

(** C5: a question that misses the math and fact stages and, lowercased,
    equals the lowercased form of a question stored in short-term memory is
    answered with the answer of the most recent such pair, labelled
    local-memory, with from_memory true and no provider used; no provider is
    contacted and the ring buffer stays as it was.  After a math or fact
    match the ring buffer ends with the pair of the stripped question and
    the answer, behind all the pairs it held before, or all but the oldest
    when it already held 50; no provider is contacted. *)
Theorem C5_fast_path_memory :
  forall (w : World) (question : string) (force_provider : option string)
         (context : string) (st : State),
    let q := PyStr.strip question in
    let ql := PyStr.lower q in
    let m := _math_try (sympify_evalf w) ql in
    let r := answer_question w question force_provider context st in
    (m = "" -> facts_lookup ql = None -> Memory_ok (MEMORY st) ->
     forall qq aa, In (qq, aa) (MEMORY st) -> PyStr.lower qq = ql ->
     exists older qq' aa' newer,
       MEMORY st = older ++ (qq', aa') :: newer
       /\ PyStr.lower qq' = ql
       /\ (forall qa, In qa newer -> PyStr.lower (fst qa) <> ql)
       /\ r = (local_answer aa' "local-memory" true, st))
    /\ (m <> "" ->
        fst r = local_answer m "local-math" false
        /\ posts (snd r) = posts st
        /\ exists older,
             MEMORY (snd r) = older ++ [(q, m)]
             /\ (List.length (MEMORY st) < 50 -> older = MEMORY st)
             /\ (50 <= List.length (MEMORY st) -> older = tl (MEMORY st)))
    /\ (m = "" -> forall v, facts_lookup ql = Some v ->
        fst r = local_answer v "local-facts" false
        /\ posts (snd r) = posts st
        /\ exists older,
             MEMORY (snd r) = older ++ [(q, v)]
             /\ (List.length (MEMORY st) < 50 -> older = MEMORY st)
             /\ (50 <= List.length (MEMORY st) -> older = tl (MEMORY st))).
Proof.
  intros w question force_provider context st q ql m r.
  assert (Hql : PyStr.truthy ql = PyStr.truthy q) by apply lower_truthy.
  split; [| split].
  - intros Hm Hfacts Hok qq aa Hin Hqq.
    unfold facts_lookup in Hfacts.
    destruct (capital_lookup ql) eqn:Hcap; [discriminate |].
    destruct (memory_scan_hit (rev (MEMORY st)) ql) as [aa' Hscan].
    { exists (qq, aa). split; [apply in_rev in Hin; exact Hin |].
      unfold matches. simpl. rewrite Hqq, String.eqb_refl.
      unfold Memory_ok in Hok. rewrite Forall_forall in Hok.
      specialize (Hok _ Hin). unfold nonempty_pair in Hok.
      apply andb_true_iff in Hok. apply Hok. }
    destruct (memory_lookup_found _ _ _ Hok Hscan)
      as (older & qq' & newer & HM & Hq' & Hnewer).
    exists older, qq', aa', newer.
    repeat split; try assumption.
    unfold r, answer_question. fold q. fold ql. fold m.
    rewrite Hm. simpl PyStr.truthy. cbv iota.
    rewrite Hcap, Hfacts. unfold memory_lookup. rewrite Hscan. reflexivity.
  - intros Hm.
    assert (Htm : PyStr.truthy m = true) by (apply truthy_true_iff; exact Hm).
    unfold r, answer_question. fold q. fold ql. fold m. rewrite Htm.
    split; [reflexivity | split; [reflexivity |]]. simpl snd.
    apply memory_add_appends; [| exact Htm].
    rewrite <- Hql. apply (math_try_truthy (sympify_evalf w)). exact Hm.
  - intros Hm v Hfacts.
    unfold r, answer_question. fold q. fold ql. fold m.
    rewrite Hm. simpl PyStr.truthy. cbv iota.
    unfold facts_lookup in Hfacts.
    destruct (capital_lookup ql) as [a |] eqn:Hcap.
    + injection Hfacts as <-.
      destruct (capital_lookup_nonempty _ _ Hcap) as [Ha Hq].
      split; [reflexivity | split; [reflexivity |]]. simpl snd.
      apply memory_add_appends; [rewrite <- Hql; exact Hq | exact Ha].
    + rewrite Hfacts.
      destruct (facts_scan_nonempty _ _ Hfacts) as [Hv Hq].
      split; [reflexivity | split; [reflexivity |]]. simpl snd.
      apply memory_add_appends; [rewrite <- Hql; exact Hq | exact Hv].
Qed.

Lemma C5_fast_path_memory_witness :
  (exists older qq' aa' newer,
      MEMORY remembered = older ++ (qq', aa') :: newer
      /\ PyStr.lower qq' = "what is rust?"
      /\ (forall qa, In qa newer -> PyStr.lower (fst qa) <> "what is rust?")
      /\ answer_question world_calc "  what is rust? " None "" remembered
         = (local_answer aa' "local-memory" true, remembered))
  /\ MEMORY (snd (answer_question world_calc " 2+2" None "" remembered))
     = MEMORY remembered ++ [("2+2", "4.00000000000000")]
  /\ MEMORY (snd (answer_question world_calc "Capital of Kenya?" None ""
                                  remembered))
     = MEMORY remembered ++ [("Capital of Kenya?", "Nairobi")]
  /\ MEMORY (snd (answer_question world_calc " 2+2" None "" full_memory))
     = tl (MEMORY full_memory) ++ [("2+2", "4.00000000000000")].
Proof.
  assert (Hok : Memory_ok (MEMORY remembered))
    by (repeat constructor).
  destruct (C5_fast_path_memory world_calc "  what is rust? " None ""
              remembered) as (Hhit & _ & _).
  destruct (C5_fast_path_memory world_calc " 2+2" None "" remembered)
    as (_ & Hmath & _).
  destruct (C5_fast_path_memory world_calc "Capital of Kenya?" None ""
              remembered) as (_ & _ & Hfact).
  destruct (C5_fast_path_memory world_calc " 2+2" None "" full_memory)
    as (_ & Hfull & _).
  split; [| split; [| split]].
  - apply (Hhit eq_refl eq_refl Hok "What is Rust?" "A language");
      [left; reflexivity | reflexivity].
  - destruct Hmath as (_ & _ & older & Hmem & Hroom & _); [discriminate |].
    rewrite Hmem, Hroom; [reflexivity | simpl; lia].
  - destruct (Hfact eq_refl "Nairobi" eq_refl)
      as (_ & _ & older & Hmem & Hroom & _).
    rewrite Hmem, Hroom; [reflexivity | simpl; lia].
  - destruct Hfull as (_ & _ & older & Hmem & _ & Hevict); [discriminate |].
    rewrite Hmem, Hevict; [reflexivity | simpl; lia].
Defined.

(** ** Provider calls *)

(** One case for each of the five providers, from [H : In p provider_names] *)
Ltac each_provider H :=
  unfold provider_names in H; simpl in H;
  destruct H as [<- | [<- | [<- | [<- | [<- | []]]]]].

Lemma call_provider_spec (w : World) (p prompt : string) (st : State) :
  In p provider_names ->
  call_provider w p prompt st = wrapper_result w p prompt st.
Proof.
  intros Hp. each_provider Hp;
    unfold call_provider, wrapper_result, has_key, logged;
    cbn [dict_get _PROVIDER_FUNCS String.eqb Ascii.eqb Bool.eqb];
    unfold _openai_chat, _anthropic_chat, _google_chat, _mistral_chat,
      _cohere_chat, do_post;
    match goal with
    | |- context [negb ?b] => destruct b
    end; cbn [negb]; try reflexivity;
    match goal with
    | |- context [http_post ?a ?b ?c ?d] =>
        destruct (http_post a b c d) as [| sc [| t | ps]]
    end; try reflexivity; destruct (400 <=? sc); reflexivity.
Qed.

Lemma active_providers_spec (w : World) (order : list string) (p : string) :
  In p (_active_providers w order)
  <-> (In p provider_names /\ str_in p order = true /\ has_key w p = true).
Proof.
  unfold _active_providers, provider_names. simpl dict_keys.
  split.
  - intros Hin.
    repeat match type of Hin with
           | context [if ?b then _ else _] =>
               let E := fresh "E" in destruct b eqn:E
           end;
      simpl in Hin;
      repeat match type of Hin with
             | _ \/ _ => destruct Hin as [Hin | Hin]
             | False => destruct Hin
             end;
      subst p;
      repeat match goal with
             | H : _ && _ = true |- _ =>
                 apply andb_true_iff in H; destruct H
             end;
      (split; [simpl; auto 10 | split; [assumption |]]);
      unfold has_key; cbn [String.eqb Ascii.eqb Bool.eqb]; assumption.
  - intros (Hp & Ho & Hk). each_provider Hp;
      unfold has_key in Hk;
      cbn [String.eqb Ascii.eqb Bool.eqb] in Hk;
      rewrite Ho, Hk; simpl andb; cbv iota;
      repeat match goal with
             | |- context [if ?b then _ else _] => destruct b
             end;
      simpl; auto 10.
Qed.

(** ** Fan-out *)

Lemma call_provider_unknown (w : World) (p prompt : string) (st : State) :
  ~ In p provider_names -> call_provider w p prompt st = (Raised, st).
Proof.
  intros Hp. unfold call_provider.
  apply dict_get_None_keys in Hp. rewrite Hp. reflexivity.
Qed.

Lemma wrapper_result_memory (w : World) (p prompt : string) (st : State) :
  MEMORY (snd (wrapper_result w p prompt st)) = MEMORY st.
Proof.
  unfold wrapper_result.
  destruct (negb (has_key w p)); [reflexivity |].
  destruct (http_post w p prompt _) as [| sc body]; [reflexivity |].
  destruct (400 <=? sc); reflexivity.
Qed.

Lemma call_provider_memory (w : World) (p prompt : string) (st : State) :
  MEMORY (snd (call_provider w p prompt st)) = MEMORY st.
Proof.
  destruct (in_dec string_dec p provider_names) as [Hp | Hp].
  - rewrite call_provider_spec by exact Hp. apply wrapper_result_memory.
  - rewrite call_provider_unknown by exact Hp. reflexivity.
Qed.

Lemma submit_all_memory (w : World) (active : list string) (prompt : string) :
  forall st, MEMORY (snd (submit_all w active prompt st)) = MEMORY st.
Proof.
  induction active as [| p ps IH]; intros st; simpl.
  - reflexivity.
  - destruct (call_provider w p prompt st) as [o st1] eqn:Hc.
    specialize (IH st1).
    destruct (submit_all w ps prompt st1) as [futures st2]. simpl in *.
    rewrite IH. change st1 with (snd (o, st1)). rewrite <- Hc.
    apply call_provider_memory.
Qed.

(** Every future holds what a call to its provider gave. *)
Lemma submit_all_outcomes (w : World) (active : list string) (prompt : string) :
  forall st p o,
    dict_get p (fst (submit_all w active prompt st)) = Some o ->
    In p active /\ exists st', o = fst (call_provider w p prompt st').
Proof.
  induction active as [| a ps IH]; intros st p o; simpl.
  - discriminate.
  - destruct (call_provider w a prompt st) as [oa st1] eqn:Hc.
    specialize (IH st1 p o).
    destruct (submit_all w ps prompt st1) as [futures st2]. simpl in *.
    destruct (String.eqb_spec a p) as [-> | Hne].
    + intros H. injection H as <-. split; [left; reflexivity |].
      exists st. rewrite Hc. reflexivity.
    + intros H. destruct (IH H) as [Hin Hex]. split; [right; exact Hin | exact Hex].
Qed.

Lemma collect_unusable (futures : dict Outcome) (completed : list string) :
  (forall p o, dict_get p futures = Some o -> usable o = false) ->
  forall answers used,
    collect futures completed answers used = (answers, used).
Proof.
  intros H. induction completed as [| p ps IH]; intros answers used; simpl.
  - reflexivity.
  - destruct (dict_get p futures) as [o |] eqn:Hp; [| apply IH].
    specialize (H p o Hp).
    destruct o as [| [resp |]]; try apply IH.
    simpl in H. rewrite H. apply IH.
Qed.

(** The fan-out keeps an answer and a provider name together, and only for
    a completion that is a non-empty str. *)
Lemma collect_kept (futures : dict Outcome) (completed : list string) :
  forall answers used,
    List.length answers = List.length used ->
    List.length (fst (collect futures completed answers used))
    = List.length (snd (collect futures completed answers used))
    /\ forall p,
         In p (snd (collect futures completed answers used)) ->
         In p used
         \/ (In p completed
             /\ exists resp, dict_get p futures = Some (Returned (Some resp))
                             /\ resp <> "").
Proof.
  induction completed as [| c cs IH]; intros answers used Hlen; simpl.
  - split; [exact Hlen |]. intros p Hp. left. exact Hp.
  - assert (Hskip :
      List.length (fst (collect futures cs answers used))
      = List.length (snd (collect futures cs answers used))
      /\ forall p,
           In p (snd (collect futures cs answers used)) ->
           In p used
           \/ ((c = p \/ In p cs)
               /\ exists resp, dict_get p futures = Some (Returned (Some resp))
                               /\ resp <> "")).
    { destruct (IH answers used Hlen) as [Hl Hin]. split; [exact Hl |].
      intros p Hp. destruct (Hin p Hp) as [Hu | [Hc Hex]];
        [left; exact Hu | right; split; [right; exact Hc | exact Hex]]. }
    destruct (dict_get c futures) as [o |] eqn:Hc; [| exact Hskip].
    destruct o as [| [resp |]]; try exact Hskip.
    destruct (PyStr.truthy resp) eqn:Ht; [| exact Hskip].
    destruct (IH (answers ++ [_strip_answer resp]) (used ++ [c])) as [Hl Hin].
    { rewrite !length_app. simpl. lia. }
    split; [exact Hl |].
    intros p Hp. destruct (Hin p Hp) as [Hu | [Hcs Hex]].
    + apply in_app_or in Hu. destruct Hu as [Hu | [<- | []]].
      * left. exact Hu.
      * right. split; [left; reflexivity |].
        exists resp. split; [exact Hc | apply truthy_true_iff; exact Ht].
    + right. split; [right; exact Hcs | exact Hex].
Qed.

Lemma ensemble_no_answer (w : World) (q prompt : string)
      (active : list string) (st : State) :
  (forall p st', In p active ->
                 usable (fst (call_provider w p prompt st')) = false) ->
  ensemble w q prompt active st
  = (no_answer, snd (submit_all w active prompt st)).
Proof.
  intros H. unfold ensemble.
  pose proof (submit_all_outcomes w active prompt st) as Hout.
  destruct (submit_all w active prompt st) as [futures st1]. simpl in *.
  rewrite collect_unusable; [reflexivity |].
  intros p o Hp. destruct (Hout p o Hp) as [Hin [st' ->]].
  apply H. exact Hin.
Qed.

Lemma str_in_In (x : string) (l : list string) :
  str_in x l = true <-> In x l.
Proof.
  unfold str_in. rewrite existsb_exists. split.
  - intros (y & Hy & Heq). apply String.eqb_eq in Heq. subst y. exact Hy.
  - intros H. exists x. split; [exact H | apply String.eqb_refl].
Qed.

Lemma provider_stage_no_answer (w : World) (q : string)
      (force_provider : option string) (context : string) (st : State) :
  (forall p st',
      In p (_active_providers w (_provider_order w force_provider)) ->
      usable (fst (call_provider w p (make_prompt q context) st')) = false) ->
  fst (provider_stage w q force_provider context st) = no_answer
  /\ MEMORY (snd (provider_stage w q force_provider context st)) = MEMORY st.
Proof.
  intros H. unfold provider_stage.
  set (prompt := make_prompt q context) in *.
  set (active := _active_providers w (_provider_order w force_provider)) in *.
  assert (Hens : forall st0,
             fst (ensemble w q prompt active st0) = no_answer
             /\ MEMORY (snd (ensemble w q prompt active st0)) = MEMORY st0).
  { intros st0. rewrite ensemble_no_answer by exact H. simpl.
    split; [reflexivity | apply submit_all_memory]. }
  destruct force_provider as [fp |]; [| apply Hens].
  destruct (PyStr.truthy fp && str_in fp active) eqn:Hforced; [| apply Hens].
  apply andb_true_iff in Hforced. destruct Hforced as [_ Hin].
  apply str_in_In in Hin.
  pose proof (H fp st Hin) as Hfail.
  pose proof (call_provider_memory w fp prompt st) as Hmem.
  destruct (call_provider w fp prompt st) as [o st1]. simpl in Hfail, Hmem.
  rewrite <- Hmem.
  destruct o as [| [t |]]; try apply Hens.
  simpl in Hfail. rewrite Hfail. apply Hens.
Qed.

Lemma answer_question_slow_path (w : World) (question : string)
      (force_provider : option string) (context : string) (st : State) :
  _math_try (sympify_evalf w) (PyStr.lower (PyStr.strip question)) = "" ->
  facts_lookup (PyStr.lower (PyStr.strip question)) = None ->
  memory_lookup (MEMORY st) (PyStr.lower (PyStr.strip question)) = None ->
  answer_question w question force_provider context st
  = provider_stage w (PyStr.strip question) force_provider context st.
Proof.
  intros Hm Hfacts Hmem. unfold answer_question. rewrite Hm. simpl PyStr.truthy.
  cbv iota. unfold facts_lookup in Hfacts.
  destruct (capital_lookup _); [discriminate |].
  rewrite Hfacts, Hmem. reflexivity.
Qed.

Lemma ensemble_posts (w : World) (q prompt : string) (active : list string)
      (st : State) :
  posts (snd (ensemble w q prompt active st))
  = posts (snd (submit_all w active prompt st)).
Proof.
  unfold ensemble.
  destruct (submit_all w active prompt st) as [futures st1].
  destruct (collect futures (as_completed w active) [] []) as [answers used].
  destruct answers; reflexivity.
Qed.

(** The only writes to the ring buffer go through [memory_add]. *)
Lemma ensemble_memory (w : World) (q prompt : string) (active : list string)
      (st : State) :
  exists a, MEMORY (snd (ensemble w q prompt active st))
            = memory_add q a (MEMORY st).
Proof.
  unfold ensemble.
  pose proof (submit_all_memory w active prompt st) as Hmem.
  destruct (submit_all w active prompt st) as [futures st1]. simpl in Hmem.
  destruct (collect futures (as_completed w active) [] []) as [answers used].
  destruct answers as [| a0 answers]; simpl; rewrite Hmem.
  - exists "". unfold memory_add. rewrite andb_false_r. reflexivity.
  - eexists. reflexivity.
Qed.

Lemma provider_stage_memory (w : World) (q : string)
      (force_provider : option string) (context : string) (st : State) :
  exists a, MEMORY (snd (provider_stage w q force_provider context st))
            = memory_add q a (MEMORY st).
Proof.
  unfold provider_stage.
  destruct force_provider as [fp |]; [| apply ensemble_memory].
  destruct (PyStr.truthy fp && str_in fp _); [| apply ensemble_memory].
  pose proof (call_provider_memory w fp (make_prompt q context) st) as Hmem.
  destruct (call_provider w fp (make_prompt q context) st) as [o st1].
  simpl in Hmem. rewrite <- Hmem.
  destruct o as [| [t |]]; try apply ensemble_memory.
  destruct (PyStr.truthy t); [| apply ensemble_memory].
  eexists. reflexivity.
Qed.

Lemma answer_question_memory_ok (w : World) (question : string)
      (force_provider : option string) (context : string) (st : State) :
  Memory_ok (MEMORY st) ->
  Memory_ok (MEMORY (snd (answer_question w question force_provider context st))).
Proof.
  intros Hok. unfold answer_question.
  destruct (PyStr.truthy (_math_try _ _)); [apply memory_add_ok; exact Hok |].
  destruct (capital_lookup _); [apply memory_add_ok; exact Hok |].
  destruct (facts_scan _ _); [apply memory_add_ok; exact Hok |].
  destruct (memory_lookup _ _); [exact Hok |].
  destruct (provider_stage_memory w (PyStr.strip question) force_provider
              context st) as [a ->].
  apply memory_add_ok. exact Hok.
Qed.

(** Whoever is named in [providers_used] after the fan-out is an active
    provider whose call returned a non-empty str. *)
Lemma ensemble_used (w : World) (q prompt : string) (active : list string)
      (st : State) (p : string) :
  In p (providers_used (fst (ensemble w q prompt active st))) ->
  In p active
  /\ exists st' resp,
       fst (call_provider w p prompt st') = Returned (Some resp) /\ resp <> "".
Proof.
  unfold ensemble.
  pose proof (submit_all_outcomes w active prompt st) as Hout.
  destruct (submit_all w active prompt st) as [futures st1]. simpl in Hout.
  destruct (collect_kept futures (as_completed w active) [] [] eq_refl)
    as [_ Hkept].
  destruct (collect futures (as_completed w active) [] []) as [answers used].
  simpl in Hkept.
  destruct answers as [| a0 answers]; simpl; [intros [] |].
  intros Hp. destruct (Hkept p Hp) as [[] | [_ (resp & Hget & Hne)]].
  destruct (Hout p _ Hget) as [Hin [st' Hst']].
  split; [exact Hin |]. exists st', resp. rewrite <- Hst'. split; [reflexivity | exact Hne].
Qed.

Lemma collect_counts (futures : dict Outcome) (completed : list string)
      (p : string) :
  forall answers used,
    In p used
    \/ (In p completed
        /\ exists resp, dict_get p futures = Some (Returned (Some resp))
                        /\ resp <> "") ->
    In p (snd (collect futures completed answers used)).
Proof.
  induction completed as [| c cs IH]; intros answers used H; simpl.
  - destruct H as [H | [[] _]]. exact H.
  - destruct H as [Hu | [[-> | Hcs] (resp & Hget & Hne)]].
    + destruct (dict_get c futures) as [[| [r |]] |];
        try (apply IH; left; exact Hu).
      destruct (PyStr.truthy r); apply IH; left;
        [apply in_or_app; left |]; exact Hu.
    + rewrite Hget. apply truthy_true_iff in Hne. rewrite Hne.
      apply IH. left. apply in_or_app. right. left. reflexivity.
    + assert (Hright : In p cs
                       /\ exists resp, dict_get p futures
                                       = Some (Returned (Some resp))
                                       /\ resp <> "")
        by (split; [exact Hcs | exists resp; split; assumption]).
      destruct (dict_get c futures) as [[| [r |]] |];
        try (apply IH; right; exact Hright).
      destruct (PyStr.truthy r); apply IH; right; exact Hright.
Qed.

(** When every submitted future completes, the providers named after the
    fan-out are exactly the active ones whose future holds a non-empty
    str. *)
Lemma ensemble_used_iff (w : World) (q prompt : string)
      (active : list string) (st : State) (p : string) :
  World_ok w ->
  In p (providers_used (fst (ensemble w q prompt active st)))
  <-> (In p active
       /\ exists resp,
            dict_get p (fst (submit_all w active prompt st))
            = Some (Returned (Some resp))
            /\ resp <> "").
Proof.
  intros Hw. unfold ensemble.
  pose proof (submit_all_outcomes w active prompt st) as Hout.
  destruct (submit_all w active prompt st) as [futures st1]. simpl in *.
  destruct (collect_kept futures (as_completed w active) [] [] eq_refl)
    as [Hlen Hkept].
  pose proof (collect_counts futures (as_completed w active) p [] []) as Hcnt.
  destruct (collect futures (as_completed w active) [] []) as [answers used].
  simpl in *.
  split.
  - intros Hp.
    assert (Hused : In p used)
      by (destruct answers; [destruct Hp | exact Hp]).
    destruct (Hkept p Hused) as [[] | [_ (resp & Hget & Hne)]].
    split; [apply (Hout p _ Hget) | exists resp; split; assumption].
  - intros [Hin Hex].
    assert (Hused : In p used).
    { apply Hcnt. right. split; [| exact Hex].
      apply (Permutation_in p (Permutation_sym (Hw active))). exact Hin. }
    destruct answers as [| a0 answers]; [| exact Hused].
    destruct used; [destruct Hused | discriminate Hlen].
Qed.

Lemma ensemble_none_usable (w : World) (q prompt : string)
      (active : list string) (st : State) :
  (forall p, In p active ->
             usable_at (fst (submit_all w active prompt st)) p = false) ->
  ensemble w q prompt active st
  = (no_answer, snd (submit_all w active prompt st)).
Proof.
  intros H. unfold ensemble.
  pose proof (submit_all_outcomes w active prompt st) as Hout.
  destruct (submit_all w active prompt st) as [futures st1]. simpl in *.
  rewrite collect_unusable; [reflexivity |].
  intros p o Hp. destruct (Hout p o Hp) as [Hin _].
  specialize (H p Hin). unfold usable_at in H. rewrite Hp in H. exact H.
Qed.

(** Without a late call the fan-out under its deadline is the fan-out. *)
Lemma ensemble_timed_on_time (late : string -> bool) (w : World)
      (q prompt : string) (active : list string) (st : State) :
  existsb late active = false ->
  ensemble_timed late w q prompt active st
  = Returns (fst (ensemble w q prompt active st))
            (snd (ensemble w q prompt active st)).
Proof.
  intros Hlate. unfold ensemble_timed, ensemble.
  destruct (submit_all w active prompt st) as [futures st1].
  rewrite Hlate.
  destruct (collect futures (as_completed w active) [] []) as [answers used].
  destruct answers; reflexivity.
Qed.

Lemma ensemble_timed_late (late : string -> bool) (w : World)
      (q prompt : string) (active : list string) (st : State) :
  existsb late active = true ->
  ensemble_timed late w q prompt active st
  = Raises_TimeoutError (snd (submit_all w active prompt st)).
Proof.
  intros Hlate. unfold ensemble_timed.
  destruct (submit_all w active prompt st) as [futures st1].
  rewrite Hlate. reflexivity.
Qed.

Lemma answer_question_timed_slow_path (late : string -> bool) (w : World)
      (question : string) (force_provider : option string)
      (context : string) (st : State) :
  _math_try (sympify_evalf w) (PyStr.lower (PyStr.strip question)) = "" ->
  facts_lookup (PyStr.lower (PyStr.strip question)) = None ->
  memory_lookup (MEMORY st) (PyStr.lower (PyStr.strip question)) = None ->
  answer_question_timed late w question force_provider context st
  = provider_stage_timed late w (PyStr.strip question) force_provider
                         context st.
Proof.
  intros Hm Hfacts Hmem. unfold answer_question_timed. rewrite Hm.
  simpl PyStr.truthy. cbv iota. unfold facts_lookup in Hfacts.
  destruct (capital_lookup _); [discriminate |].
  rewrite Hfacts, Hmem. reflexivity.
Qed.

(** Without a late call [answer_question_timed] returns what
    [answer_question] returns. *)
Lemma answer_question_timed_on_time (late : string -> bool) (w : World)
      (question : string) (force_provider : option string)
      (context : string) (st : State) :
  existsb late (_active_providers w (_provider_order w force_provider))
  = false ->
  answer_question_timed late w question force_provider context st
  = Returns (fst (answer_question w question force_provider context st))
            (snd (answer_question w question force_provider context st)).
Proof.
  intros Hlate. unfold answer_question_timed, answer_question.
  destruct (PyStr.truthy (_math_try _ _)); [reflexivity |].
  destruct (capital_lookup _); [reflexivity |].
  destruct (facts_scan _ _); [reflexivity |].
  destruct (memory_lookup _ _); [reflexivity |].
  unfold provider_stage_timed, provider_stage.
  set (q := PyStr.strip question).
  set (prompt := make_prompt q context).
  set (active := _active_providers w (_provider_order w force_provider)) in *.
  assert (Hens : forall st0,
             ensemble_timed late w q prompt active st0
             = Returns (fst (ensemble w q prompt active st0))
                       (snd (ensemble w q prompt active st0)))
    by (intros st0; apply ensemble_timed_on_time; exact Hlate).
  destruct force_provider as [fp |]; [| apply Hens].
  destruct (PyStr.truthy fp && str_in fp active); [| apply Hens].
  destruct (call_provider w fp prompt st) as [o st1].
  destruct o as [| [t |]]; try apply Hens.
  destruct (PyStr.truthy t); [reflexivity | apply Hens].
Qed.

(** A forced call without a usable result hands over to the fan-out. *)
Lemma provider_stage_timed_fanout (late : string -> bool) (w : World)
      (q : string) (force_provider : option string) (context : string)
      (st : State) :
  (forall o st', forced_call w q force_provider context st = Some (o, st') ->
                 usable o = false) ->
  provider_stage_timed late w q force_provider context st
  = ensemble_timed late w q (make_prompt q context)
      (_active_providers w (_provider_order w force_provider))
      (fanout_start w q force_provider context st).
Proof.
  intros Hforced. unfold provider_stage_timed, fanout_start.
  unfold forced_call in *.
  destruct force_provider as [fp |]; [| reflexivity].
  destruct (PyStr.truthy fp && str_in fp _); [| reflexivity].
  destruct (call_provider w fp (make_prompt q context) st) as [o st1].
  specialize (Hforced o st1 eq_refl).
  destruct o as [| [t |]]; try reflexivity.
  simpl in Hforced. rewrite Hforced. reflexivity.
Qed.

Lemma fanout_start_memory (w : World) (q : string)
      (force_provider : option string) (context : string) (st : State) :
  MEMORY (fanout_start w q force_provider context st) = MEMORY st.
Proof.
  unfold fanout_start, forced_call.
  destruct force_provider as [fp |]; [| reflexivity].
  destruct (PyStr.truthy fp && str_in fp _); [| reflexivity].
  pose proof (call_provider_memory w fp (make_prompt q context) st) as Hmem.
  destruct (call_provider w fp (make_prompt q context) st) as [o st1].
  exact Hmem.
Qed.

(** C7: the sentinel is returned only when every submitted call is over by
    the deadline of the fan-out.  Take a question that misses the fast path,
    a forced call (if one is made) without a usable result, and no usable
    result from any active provider whose call is over by the deadline.
    When no call is late - as when no provider is active - the sentinel
    answer is returned; when the call to some active provider is late, the
    loop over the completed calls raises TimeoutError and no answer, the
    sentinel included, is returned.  The ring buffer is as it was at the
    end of both. *)
Theorem C7_sentinel_unless_late_call :
  forall (late : string -> bool) (w : World) (question : string)
         (force_provider : option string) (context : string) (st : State),
    let q := PyStr.strip question in
    let ql := PyStr.lower q in
    let prompt := make_prompt q context in
    let active := _active_providers w (_provider_order w force_provider) in
    let st0 := fanout_start w q force_provider context st in
    let futures := fst (submit_all w active prompt st0) in
    let st1 := snd (submit_all w active prompt st0) in
    _math_try (sympify_evalf w) ql = "" ->
    facts_lookup ql = None ->
    memory_lookup (MEMORY st) ql = None ->
    (forall o st', forced_call w q force_provider context st = Some (o, st') ->
                   usable o = false) ->
    (forall p, In p active -> late p = false -> usable_at futures p = false) ->
    MEMORY st1 = MEMORY st
    /\ ((forall p, In p active -> late p = false) ->
        answer_question_timed late w question force_provider context st
        = Returns {| mode := "single";
                     answer := "I don't have an exact answer yet for that.";
                     provider := "none";
                     providers_used := [];
                     from_memory := false |} st1)
    /\ ((exists p, In p active /\ late p = true) ->
        answer_question_timed late w question force_provider context st
        = Raises_TimeoutError st1).
Proof.
  intros late w question force_provider context st q ql prompt active st0
         futures st1 Hm Hfacts Hmem Hforced Hnone.
  rewrite answer_question_timed_slow_path by assumption.
  fold q. rewrite provider_stage_timed_fanout by exact Hforced.
  fold prompt active st0.
  split; [| split].
  - unfold st1. rewrite submit_all_memory. apply fanout_start_memory.
  - intros Hontime.
    assert (Hlate : existsb late active = false).
    { apply not_true_is_false. intros Hex.
      apply existsb_exists in Hex. destruct Hex as (p & Hin & Hp).
      rewrite (Hontime p Hin) in Hp. discriminate. }
    rewrite ensemble_timed_on_time by exact Hlate.
    rewrite ensemble_none_usable; [reflexivity |].
    intros p Hin. apply Hnone; [exact Hin | apply Hontime; exact Hin].
  - intros Hex.
    apply ensemble_timed_late. apply existsb_exists. exact Hex.
Qed.

Lemma C7_sentinel_unless_late_call_witness :
  answer_question_timed anthropic_late world_no_keys "Why is the sky blue?"
                        None "" fresh
  = Returns no_answer fresh
  /\ answer_question_timed on_time world_openai_down "Why is the sky blue?"
                           (Some "openai") "" fresh
     = Returns no_answer {| MEMORY := []; posts := ["openai"; "openai"] |}
  /\ answer_question_timed anthropic_late world_openai_down
                           "Why is the sky blue?" None "" fresh
     = Raises_TimeoutError
         {| MEMORY := []; posts := ["openai"; "anthropic"] |}.
Proof.
  destruct (C7_sentinel_unless_late_call
              anthropic_late world_no_keys "Why is the sky blue?" None ""
              fresh) as (_ & Hnone & _);
    [reflexivity | reflexivity | reflexivity | discriminate
    | intros p [] |].
  destruct (C7_sentinel_unless_late_call
              on_time world_openai_down "Why is the sky blue?"
              (Some "openai") "" fresh) as (_ & Hfail & _);
    [reflexivity | reflexivity | reflexivity
    | intros o st' H; injection H as <- _; reflexivity
    | intros p [<- | []] _; reflexivity |].
  destruct (C7_sentinel_unless_late_call
              anthropic_late world_openai_down "Why is the sky blue?" None ""
              fresh) as (_ & _ & Hlate);
    [reflexivity | reflexivity | reflexivity | discriminate
    | intros p [<- | [<- | []]] Hp; [reflexivity | discriminate Hp] |].
  split; [| split].
  - apply Hnone. intros p [].
  - apply Hfail. intros p _. reflexivity.
  - apply Hlate. exists "anthropic". split; [right; left |]; reflexivity.
Defined.

(** C4, as stated, fails: a provider that completes with the empty string
    is posted to, its wrapper returns the empty string, and the fan-out drops
    it; the provider is not counted and the request ends in the sentinel. *)
Lemma C4_empty_completion_counterexample :
  In "openai" (_active_providers world_empty_completion
                 (_provider_order world_empty_completion None))
  /\ fst (call_provider world_empty_completion "openai" "Hello there" fresh)
     = Returned (Some "")
  /\ ~ In "openai"
       (providers_used
          (fst (answer_question world_empty_completion "Hello there" None ""
                                fresh)))
  /\ answer_question world_empty_completion "Hello there" None "" fresh
     = (no_answer, {| MEMORY := []; posts := ["openai"] |}).
Proof.
  split; [| split; [| split]].
  - vm_compute. left. reflexivity.
  - reflexivity.
  - vm_compute. intros [].
  - reflexivity.
Qed.

(** C4, amended: a wrapper returns absent for a missing credential, for a
    status of 400 or more and for a malformed payload, and raises on a
    transport error; the callers treat an empty-string completion like an
    absent one: the fan-out keeps an answer and counts its provider exactly
    for the completions that are non-empty strings. *)
Theorem C4_absent_and_empty_completions :
  forall (w : World) (p q prompt : string) (active : list string) (st : State),
    In p provider_names ->
    let res := http_post w p prompt (count_occ string_dec (posts st) p) in
    (has_key w p = false -> call_provider w p prompt st = (Returned None, st))
    /\ (has_key w p = true -> res = TransportError ->
        fst (call_provider w p prompt st) = Raised)
    /\ (has_key w p = true -> forall status_code body,
          res = Response status_code body ->
          400 <= status_code \/ body = Malformed ->
          fst (call_provider w p prompt st) = Returned None)
    /\ (forall futures completed,
          List.length (fst (collect futures completed [] []))
          = List.length (snd (collect futures completed [] []))
          /\ forall name,
               In name (snd (collect futures completed [] []))
               <-> (In name completed
                    /\ exists resp,
                         dict_get name futures = Some (Returned (Some resp))
                         /\ resp <> ""))
    /\ (World_ok w ->
        forall name,
          In name (providers_used (fst (ensemble w q prompt active st)))
          <-> (In name active
               /\ exists resp,
                    dict_get name (fst (submit_all w active prompt st))
                    = Some (Returned (Some resp))
                    /\ resp <> "")).
Proof.
  intros w p q prompt active st Hp res.
  rewrite (call_provider_spec w p prompt st Hp).
  unfold wrapper_result. fold res.
  split; [| split; [| split; [| split]]].
  - intros ->. reflexivity.
  - intros -> ->. reflexivity.
  - intros -> status_code body -> Hbad. simpl negb. cbv iota.
    destruct (Nat.leb_spec 400 status_code) as [Hge | Hlt]; [reflexivity |].
    destruct Hbad as [Hge | ->]; [lia | reflexivity].
  - intros futures completed.
    destruct (collect_kept futures completed [] [] eq_refl) as [Hlen Hkept].
    split; [exact Hlen |].
    intros name. split.
    + intros Hin. destruct (Hkept name Hin) as [[] | Hex]. exact Hex.
    + intros Hex. apply collect_counts. right. exact Hex.
  - intros Hw name. apply ensemble_used_iff. exact Hw.
Qed.

Lemma C4_absent_and_empty_completions_witness :
  call_provider world_no_keys "openai" "Hello there" fresh
  = (Returned None, fresh)
  /\ fst (call_provider world_openai_down "openai" "Hello there" fresh)
     = Returned None
  /\ In "anthropic"
       (providers_used
          (fst (ensemble world_openai_down "Hello there" "Hello there"
                         ["openai"; "anthropic"] fresh)))
  /\ ~ In "openai"
       (providers_used
          (fst (ensemble world_empty_completion "Hello there" "Hello there"
                         ["openai"] fresh))).
Proof.
  assert (Hp : In "openai" provider_names) by (left; reflexivity).
  assert (Hrev : World_ok world_openai_down).
  { intros l. apply Permutation_sym. apply Permutation_rev. }
  assert (Hid : World_ok world_empty_completion).
  { intros l. apply Permutation_refl. }
  destruct (C4_absent_and_empty_completions
              world_no_keys "openai" "Hello there" "Hello there" [] fresh Hp)
    as (Hnokey & _).
  destruct (C4_absent_and_empty_completions
              world_openai_down "openai" "Hello there" "Hello there"
              ["openai"; "anthropic"] fresh Hp)
    as (_ & _ & Hstatus & _ & Hused).
  destruct (C4_absent_and_empty_completions
              world_empty_completion "openai" "Hello there" "Hello there"
              ["openai"] fresh Hp)
    as (_ & _ & _ & _ & Hempty).
  split; [| split; [| split]].
  - apply Hnokey. reflexivity.
  - apply (Hstatus eq_refl 500 Malformed); [reflexivity | right; reflexivity].
  - apply (Hused Hrev). split; [right; left; reflexivity |].
    exists "Answer: Paris". split; [reflexivity | discriminate].
  - intros Hin. apply (Hempty Hid) in Hin.
    destruct Hin as [_ (resp & Hget & Hne)].
    vm_compute in Hget. injection Hget as <-. apply Hne. reflexivity.
Defined.

(** ** Forced provider *)

Lemma forced_active (w : World) (fp : string) :
  In fp provider_names ->
  _active_providers w (_provider_order w (Some fp))
  = if has_key w fp then [fp] else [].
Proof.
  intros Hp. each_provider Hp;
    unfold _provider_order, _active_providers, has_key;
    cbn [PyStr.truthy dict_mem dict_get _PROVIDER_FUNCS andb
         str_in existsb orb String.eqb Ascii.eqb Bool.eqb];
    match goal with
    | |- context [if ?b then _ else _] => destruct b
    end; reflexivity.
Qed.

Lemma call_provider_posts (w : World) (p prompt : string) (st : State) :
  In p provider_names -> has_key w p = true ->
  snd (call_provider w p prompt st) = logged p st.
Proof.
  intros Hp Hk. rewrite call_provider_spec by exact Hp.
  unfold wrapper_result. rewrite Hk. simpl negb. cbv iota.
  destruct (http_post w p prompt _) as [| sc body]; [reflexivity |].
  destruct (400 <=? sc); reflexivity.
Qed.

(** C1 on the code: after the forced provider has failed, the fan-out runs
    over the forced provider alone.  It is posted to a second time, no other
    configured provider is contacted, and none can be named in the answer. *)
Theorem C1_forced_failure_fans_out_to_forced_only :
  forall (w : World) (question fp context : string) (st : State),
    let q := PyStr.strip question in
    let ql := PyStr.lower q in
    let r := answer_question w question (Some fp) context st in
    _math_try (sympify_evalf w) ql = "" ->
    facts_lookup ql = None ->
    memory_lookup (MEMORY st) ql = None ->
    In fp provider_names ->
    has_key w fp = true ->
    usable (fst (call_provider w fp (make_prompt q context) st)) = false ->
    _active_providers w (_provider_order w (Some fp)) = [fp]
    /\ posts (snd r) = posts st ++ [fp; fp]
    /\ forall p, In p (providers_used (fst r)) -> p = fp.
Proof.
  intros w question fp context st q ql r Hm Hfacts Hmem Hp Hk Hfail.
  assert (Hactive : _active_providers w (_provider_order w (Some fp)) = [fp]).
  { rewrite forced_active by exact Hp. rewrite Hk. reflexivity. }
  split; [exact Hactive |].
  assert (Hfp : PyStr.truthy fp = true).
  { each_provider Hp; reflexivity. }
  unfold r. rewrite answer_question_slow_path by assumption. fold q.
  unfold provider_stage. rewrite Hactive, Hfp.
  assert (Hin : str_in fp [fp] = true)
    by (apply str_in_In; left; reflexivity).
  rewrite Hin. simpl andb. cbv iota.
  set (prompt := make_prompt q context) in *.
  pose proof (call_provider_posts w fp prompt st Hp Hk) as Hst1.
  destruct (call_provider w fp prompt st) as [o st1]. simpl in Hfail, Hst1.
  assert (Hens : posts (snd (ensemble w q prompt [fp] st1)) = posts st ++ [fp; fp]
                 /\ forall p,
                      In p (providers_used (fst (ensemble w q prompt [fp] st1))) ->
                      p = fp).
  { split.
    - rewrite ensemble_posts. simpl.
      pose proof (call_provider_posts w fp prompt st1 Hp Hk) as Hst2.
      destruct (call_provider w fp prompt st1) as [o2 st2]. simpl in *.
      rewrite Hst2, Hst1. simpl. rewrite <- app_assoc. reflexivity.
    - intros p Hused. apply ensemble_used in Hused.
      destruct Hused as [[<- | []] _]. reflexivity. }
  destruct o as [| [t |]]; try exact Hens.
  simpl in Hfail. rewrite Hfail. exact Hens.
Qed.

Lemma C1_forced_failure_fans_out_to_forced_only_witness :
  _active_providers world_openai_down (_provider_order world_openai_down None)
  = ["openai"; "anthropic"]
  /\ _active_providers world_openai_down
       (_provider_order world_openai_down (Some "openai")) = ["openai"]
  /\ posts (snd (answer_question world_openai_down "Why is the sky blue?"
                                 (Some "openai") "" fresh))
     = ["openai"; "openai"]
  /\ answer_question world_openai_down "Why is the sky blue?"
                     (Some "openai") "" fresh
     = (no_answer, {| MEMORY := []; posts := ["openai"; "openai"] |})
  /\ fst (answer_question world_openai_down "Why is the sky blue?" None ""
                          fresh)
     = {| mode := "single"; answer := "Paris"; provider := "anthropic";
          providers_used := ["anthropic"]; from_memory := false |}.
Proof.
  destruct (C1_forced_failure_fans_out_to_forced_only
              world_openai_down "Why is the sky blue?" "openai" "" fresh)
    as (Hactive & Hposts & _);
    try reflexivity.
  - left. reflexivity.
  - split; [reflexivity | split; [exact Hactive | split; [exact Hposts |]]].
    split; reflexivity.
Defined.

(** * Further properties *)

(** ** Characters and trimming *)

Lemma isspace_lower_char (c : ascii) :
  PyStr.isspace (PyStr.lower_char c) = PyStr.isspace c.
Proof. destruct c as [[] [] [] [] [] [] [] []]; reflexivity. Qed.

Lemma lower_char_idem (c : ascii) :
  PyStr.lower_char (PyStr.lower_char c) = PyStr.lower_char c.
Proof. destruct c as [[] [] [] [] [] [] [] []]; reflexivity. Qed.

Lemma lower_idem (s : string) : PyStr.lower (PyStr.lower s) = PyStr.lower s.
Proof.
  induction s as [| c s IH]; simpl; [reflexivity |].
  rewrite lower_char_idem, IH. reflexivity.
Qed.

Lemma lstrip_lower (s : string) :
  PyStr.lstrip (PyStr.lower s) = PyStr.lower (PyStr.lstrip s).
Proof.
  induction s as [| c s IH]; simpl; [reflexivity |].
  rewrite isspace_lower_char. destruct (PyStr.isspace c); [exact IH | reflexivity].
Qed.

Lemma rstrip_lower (s : string) :
  PyStr.rstrip (PyStr.lower s) = PyStr.lower (PyStr.rstrip s).
Proof.
  induction s as [| c s IH]; simpl; [reflexivity |].
  rewrite isspace_lower_char, IH, lower_truthy.
  destruct (PyStr.isspace c && negb (PyStr.truthy (PyStr.rstrip s)));
    reflexivity.
Qed.

Lemma strip_lower (s : string) :
  PyStr.strip (PyStr.lower s) = PyStr.lower (PyStr.strip s).
Proof. unfold PyStr.strip. rewrite lstrip_lower, rstrip_lower. reflexivity. Qed.

Lemma rstrip_idem (s : string) : PyStr.rstrip (PyStr.rstrip s) = PyStr.rstrip s.
Proof.
  induction s as [| c s IH]; simpl; [reflexivity |].
  destruct (PyStr.isspace c && negb (PyStr.truthy (PyStr.rstrip s))) eqn:E;
    [reflexivity |].
  simpl. rewrite IH, E. reflexivity.
Qed.

Lemma lstrip_idem (s : string) : PyStr.lstrip (PyStr.lstrip s) = PyStr.lstrip s.
Proof.
  induction s as [| c s IH]; simpl; [reflexivity |].
  destruct (PyStr.isspace c) eqn:E; [exact IH |].
  simpl. rewrite E. reflexivity.
Qed.

Lemma lstrip_rstrip (s : string) :
  PyStr.lstrip (PyStr.rstrip s) = PyStr.rstrip (PyStr.lstrip s).
Proof.
  induction s as [| c s IH]; simpl; [reflexivity |].
  destruct (PyStr.isspace c) eqn:Ec; simpl.
  - destruct (PyStr.truthy (PyStr.rstrip s)) eqn:Er; simpl.
    + rewrite Ec. exact IH.
    + rewrite <- IH. apply truthy_false_iff in Er. rewrite Er. reflexivity.
  - rewrite Ec. reflexivity.
Qed.

Lemma strip_idem (s : string) : PyStr.strip (PyStr.strip s) = PyStr.strip s.
Proof.
  unfold PyStr.strip.
  rewrite (lstrip_rstrip (PyStr.lstrip s)), lstrip_idem. apply rstrip_idem.
Qed.

Lemma rstrip_cons (c : ascii) (s : string) :
  PyStr.isspace c = false ->
  PyStr.rstrip (String c s) = String c (PyStr.rstrip s).
Proof. intros E. simpl. rewrite E. reflexivity. Qed.

(** ** [memory_tail] *)

(** X1: [memory_tail n] gives the [n] most recent pairs, oldest first, for
    [n >= 1]; for [n = 0] the slice is the whole buffer, not the empty list;
    a negative [n] drops the oldest pairs instead. *)
Theorem X1_memory_tail :
  forall (M : Memory) (n : Z),
    ((1 <= n)%Z ->
     memory_tail n M = lastn (Z.to_nat n) M
     /\ List.length (memory_tail n M) = Nat.min (Z.to_nat n) (List.length M))
    /\ memory_tail 0 M = M
    /\ ((n < 0)%Z -> memory_tail n M = skipn (Z.to_nat (- n)) M).
Proof.
  intros M n. unfold memory_tail, py_slice_from, lastn.
  split; [| split].
  - intros Hn.
    destruct (Z.ltb_spec (- n) 0) as [_ | H]; [| lia].
    replace (Z.to_nat (Z.max 0 (Z.of_nat (List.length M) + - n)))
      with (List.length M - Z.to_nat n) by lia.
    split; [reflexivity |]. rewrite length_skipn. lia.
  - reflexivity.
  - intros Hn.
    destruct (Z.ltb_spec (- n) 0) as [H | _]; [lia | reflexivity].
Qed.

Lemma X1_memory_tail_witness :
  memory_tail 2 [("q1", "a1"); ("q2", "a2"); ("q3", "a3")]
  = [("q2", "a2"); ("q3", "a3")]
  /\ memory_tail 5 [("q1", "a1")] = [("q1", "a1")]
  /\ memory_tail (-1) [("q1", "a1"); ("q2", "a2")] = [("q2", "a2")].
Proof.
  destruct (X1_memory_tail [("q1", "a1"); ("q2", "a2"); ("q3", "a3")] 2)
    as (H2 & _).
  destruct (X1_memory_tail [("q1", "a1")] 5) as (H5 & _).
  destruct (X1_memory_tail [("q1", "a1"); ("q2", "a2")] (-1)) as (_ & _ & Hneg).
  split; [| split].
  - apply H2. lia.
  - apply H5. lia.
  - apply Hneg. lia.
Defined.

(** ** [_strip_answer] *)

Lemma all_nonspace_lower (s : string) :
  PyStr.all_chars nonspace (PyStr.lower s) = PyStr.all_chars nonspace s.
Proof.
  induction s as [| c s IH]; simpl; [reflexivity |].
  unfold nonspace at 1 3. rewrite isspace_lower_char, IH. reflexivity.
Qed.

Lemma rstrip_app_nonspace (l s : string) :
  PyStr.all_chars nonspace l = true ->
  PyStr.rstrip (l ++ s)%string = (l ++ PyStr.rstrip s)%string.
Proof.
  induction l as [| c l IH]; simpl; intros H; [reflexivity |].
  apply andb_true_iff in H. destruct H as [Hc Hl].
  unfold nonspace in Hc. apply negb_true_iff in Hc.
  rewrite Hc, (IH Hl). reflexivity.
Qed.

Lemma lstrip_nonspace_head (c : ascii) (s : string) :
  nonspace c = true -> PyStr.lstrip (String c s) = String c s.
Proof.
  unfold nonspace. intros H. apply negb_true_iff in H. simpl. rewrite H.
  reflexivity.
Qed.

Lemma re_star_nonspace_head {R} (c : ascii) (s acc : string)
      (k : string -> string -> option R) :
  nonspace c = true ->
  re_star PyStr.isspace acc (String c s) k = k acc (String c s).
Proof.
  unfold nonspace. intros H. apply negb_true_iff in H. simpl. rewrite H.
  reflexivity.
Qed.

Lemma re_lit_lower (l rest : string) {R} (k : string -> option R) :
  re_lit PyStr.lower_char (PyStr.lower l) (l ++ rest)%string k = k rest.
Proof.
  induction l as [| c l IH]; [reflexivity |].
  cbn [re_lit PyStr.lower append]. rewrite Ascii.eqb_refl. exact IH.
Qed.

Lemma re_star_rest (s acc : string) :
  re_star PyStr.isspace acc s (fun _ rest => Some rest)
  = Some (PyStr.lstrip s).
Proof.
  revert acc. induction s as [| c s IH]; intros acc; simpl; [reflexivity |].
  destruct (PyStr.isspace c); [| reflexivity].
  rewrite IH. reflexivity.
Qed.

(** X2: what [_strip_answer] returns has no whitespace at either end, and a
    leading label answer, in any letter case and directly followed by a
    colon, is removed together with the whitespace around what follows. *)
Theorem X2_strip_answer :
  forall text : string,
    PyStr.strip (_strip_answer text) = _strip_answer text
    /\ forall label : string,
         PyStr.lower label = "answer" ->
         _strip_answer (label ++ ":" ++ text) = PyStr.strip text.
Proof.
  intros text. split.
  - unfold _strip_answer.
    destruct (negb (PyStr.truthy text)); [reflexivity | apply strip_idem].
  - intros label Hlabel.
    assert (Hns : PyStr.all_chars nonspace label = true).
    { rewrite <- all_nonspace_lower, Hlabel. reflexivity. }
    destruct label as [| c label]; [discriminate Hlabel |].
    assert (Hc : nonspace c = true).
    { simpl in Hns. apply andb_true_iff in Hns. apply Hns. }
    unfold _strip_answer.
    cbn [append PyStr.truthy negb]. cbv iota.
    change (String c (label ++ String ":" text))
      with (String c label ++ (":" ++ text))%string.
    assert (Hstrip : PyStr.strip (String c label ++ (":" ++ text))
                     = (String c label ++ (":" ++ PyStr.rstrip text))%string).
    { unfold PyStr.strip. cbn [append].
      rewrite lstrip_nonspace_head by exact Hc.
      change (String c (label ++ String ":" text))
        with (String c label ++ (":" ++ text))%string.
      rewrite rstrip_app_nonspace by exact Hns.
      rewrite (rstrip_app_nonspace ":" text eq_refl). reflexivity. }
    rewrite Hstrip.
    assert (Hsub : sub_answer_prefix
                     (String c label ++ (":" ++ PyStr.rstrip text))
                   = PyStr.lstrip (PyStr.rstrip text)).
    { unfold sub_answer_prefix.
      cbn [append]. rewrite re_star_nonspace_head by exact Hc.
      change (String c (label ++ String ":" (PyStr.rstrip text)))
        with (String c label ++ String ":" (PyStr.rstrip text))%string.
      rewrite <- Hlabel at 1. rewrite re_lit_lower.
      rewrite re_star_nonspace_head by reflexivity.
      cbn [re_lit no_fold]. rewrite Ascii.eqb_refl.
      rewrite re_star_rest. reflexivity. }
    rewrite Hsub. unfold PyStr.strip.
    rewrite lstrip_idem, lstrip_rstrip. apply rstrip_idem.
Qed.

Lemma X2_strip_answer_witness :
  _strip_answer ("ANSWER" ++ ":" ++ "   Paris  ") = "Paris".
Proof.
  destruct (X2_strip_answer "   Paris  ") as [_ Hlabel].
  apply (Hlabel "ANSWER"). reflexivity.
Defined.

(** ** Votes *)

Lemma dict_get_set_same {V} (k : string) (v : V) (d : dict V) :
  dict_get k (dict_set k v d) = Some v.
Proof.
  induction d as [| [k' v'] d IH]; simpl.
  - rewrite String.eqb_refl. reflexivity.
  - destruct (String.eqb k' k) eqn:E; simpl; rewrite E; [reflexivity | exact IH].
Qed.

Lemma dict_get_set_other {V} (k k' : string) (v : V) (d : dict V) :
  k <> k' -> dict_get k' (dict_set k v d) = dict_get k' d.
Proof.
  intros Hne. induction d as [| [k0 v0] d IH]; simpl.
  - destruct (String.eqb_spec k k'); [contradiction | reflexivity].
  - destruct (String.eqb_spec k0 k) as [-> | Hk0]; simpl.
    + destruct (String.eqb_spec k k'); [contradiction | reflexivity].
    + destruct (String.eqb k0 k'); [reflexivity | exact IH].
Qed.

(** What one turn of the counting loop does to the entry of a key. *)
Lemma vote_step_get (counts : Counts) (raw n : string) :
  dict_get n (vote_step counts raw)
  = if votable raw && String.eqb (_normalize_for_vote raw) n
    then Some (match dict_get n counts with
               | Some (c, r) => (c + 1, r)
               | None => (1, raw)
               end)
    else dict_get n counts.
Proof.
  unfold vote_step, votable.
  destruct (PyStr.truthy (_normalize_for_vote raw)); simpl; [| reflexivity].
  destruct (String.eqb_spec (_normalize_for_vote raw) n) as [<- | Hne].
  - unfold dict_mem.
    destruct (dict_get (_normalize_for_vote raw) counts) as [[c r] |] eqn:Hg.
    + rewrite Hg. apply dict_get_set_same.
    + rewrite dict_get_set_same. apply dict_get_set_same.
  - unfold dict_mem.
    destruct (dict_get (_normalize_for_vote raw) counts) as [[c r] |] eqn:Hg.
    + rewrite Hg. apply dict_get_set_other. exact Hne.
    + rewrite dict_get_set_same.
      rewrite !dict_get_set_other by exact Hne. reflexivity.
Qed.

Lemma vote_fold_get (candidates : list string) (n : string) :
  n <> "" ->
  forall counts,
    dict_get n (fold_left vote_step candidates counts)
    = match dict_get n counts with
      | Some (c, r) => Some (c + votes n candidates, r)
      | None =>
          match first_raw n candidates with
          | Some r => Some (votes n candidates, r)
          | None => None
          end
      end.
Proof.
  intros Hn. unfold votes, first_raw.
  induction candidates as [| raw cs IH]; intros counts; simpl.
  - destruct (dict_get n counts) as [[c r] |]; [| reflexivity].
    rewrite Nat.add_0_r. reflexivity.
  - rewrite IH, vote_step_get.
    destruct (String.eqb_spec (_normalize_for_vote raw) n) as [Heq | Hne].
    + assert (Hv : votable raw = true).
      { unfold votable. rewrite Heq. apply truthy_true_iff. exact Hn. }
      rewrite Hv. simpl.
      destruct (dict_get n counts) as [[c r] |]; f_equal; f_equal; lia.
    + rewrite andb_false_r. reflexivity.
Qed.

Lemma vote_counts_get (candidates : list string) (n : string) :
  n <> "" ->
  dict_get n (vote_counts candidates)
  = match first_raw n candidates with
    | Some r => Some (votes n candidates, r)
    | None => None
    end.
Proof. intros Hn. apply (vote_fold_get candidates n Hn []). Qed.

Lemma vote_fold_blank (candidates : list string) :
  forall counts,
    dict_get "" counts = None ->
    dict_get "" (fold_left vote_step candidates counts) = None.
Proof.
  induction candidates as [| raw cs IH]; intros counts H; simpl; [exact H |].
  apply IH. rewrite vote_step_get.
  destruct (votable raw) eqn:Hv; simpl; [| exact H].
  destruct (String.eqb_spec (_normalize_for_vote raw) "") as [Heq | _];
    [| exact H].
  unfold votable in Hv. rewrite Heq in Hv. discriminate Hv.
Qed.

Lemma vote_step_keys_NoDup (counts : Counts) (raw : string) :
  NoDup (dict_keys counts) -> NoDup (dict_keys (vote_step counts raw)).
Proof.
  intros Hnd. unfold vote_step.
  destruct (negb (PyStr.truthy (_normalize_for_vote raw))); [exact Hnd |].
  set (n := _normalize_for_vote raw).
  assert (Hfresh : forall d : Counts,
             NoDup (dict_keys d) -> forall v, NoDup (dict_keys (dict_set n v d))).
  { intros d Hd v. rewrite dict_set_keys. unfold dict_mem.
    destruct (dict_get n d) eqn:Hg; [exact Hd |].
    apply dict_get_None_keys in Hg.
    apply NoDup_rev in Hd. rewrite <- (rev_involutive (dict_keys d ++ [n])).
    apply NoDup_rev. rewrite rev_app_distr. simpl.
    constructor; [| exact Hd]. intros Hin. apply Hg. apply in_rev. exact Hin. }
  destruct (dict_mem n counts).
  - destruct (dict_get n counts) as [[c r] |]; [apply Hfresh |]; exact Hnd.
  - destruct (dict_get n (dict_set n (0, raw) counts)) as [[c r] |];
      [apply Hfresh |]; apply Hfresh; exact Hnd.
Qed.

Lemma vote_counts_keys_NoDup (candidates : list string) :
  NoDup (dict_keys (vote_counts candidates)).
Proof.
  unfold vote_counts.
  assert (H : forall counts, NoDup (dict_keys counts) ->
                NoDup (dict_keys (fold_left vote_step candidates counts))).
  { induction candidates as [| raw cs IH]; intros counts Hc; simpl;
      [exact Hc | apply IH; apply vote_step_keys_NoDup; exact Hc]. }
  apply H. constructor.
Qed.

(** Every entry of the counts is the group of its key. *)
Lemma vote_counts_entry (candidates : list string) (k : string)
      (c : nat) (r : string) :
  In (k, (c, r)) (vote_counts candidates) ->
  k <> "" /\ c = votes k candidates /\ first_raw k candidates = Some r.
Proof.
  intros Hin.
  pose proof (dict_get_entry _ (vote_counts_keys_NoDup candidates) _ _ Hin)
    as Hget.
  assert (Hk : k <> "").
  { intros ->. unfold vote_counts in Hget.
    rewrite vote_fold_blank in Hget by reflexivity. discriminate Hget. }
  rewrite (vote_counts_get candidates k Hk) in Hget.
  destruct (first_raw k candidates) as [r' |]; [| discriminate Hget].
  injection Hget as <- <-. repeat split. exact Hk.
Qed.

Lemma first_raw_found (n : string) (candidates : list string) (r : string) :
  first_raw n candidates = Some r ->
  In r candidates /\ _normalize_for_vote r = n.
Proof.
  unfold first_raw. intros H. apply find_some in H.
  destruct H as [Hin Heq]. apply String.eqb_eq in Heq. split; assumption.
Qed.

(** A votable candidate has its group in the counts. *)
Lemma vote_counts_has (candidates : list string) (c : string) :
  In c candidates -> votable c = true ->
  exists r,
    first_raw (_normalize_for_vote c) candidates = Some r
    /\ In (_normalize_for_vote c,
           (votes (_normalize_for_vote c) candidates, r))
          (vote_counts candidates).
Proof.
  intros Hin Hv.
  assert (Hn : _normalize_for_vote c <> "")
    by (apply truthy_true_iff; exact Hv).
  pose proof (vote_counts_get candidates _ Hn) as Hget.
  destruct (first_raw (_normalize_for_vote c) candidates) as [r |] eqn:Hf.
  - exists r. split; [reflexivity |].
    clear Hf. revert Hget. generalize (vote_counts candidates).
    intros d. induction d as [| [k v] d IH]; simpl; [discriminate |].
    destruct (String.eqb_spec k (_normalize_for_vote c)) as [-> | Hne].
    + intros H. injection H as ->. left. reflexivity.
    + intros H. right. apply IH. exact H.
  - exfalso. unfold first_raw in Hf.
    pose proof (find_none _ _ Hf c Hin) as Hnone. simpl in Hnone.
    rewrite String.eqb_refl in Hnone. discriminate Hnone.
Qed.

(** The winner is the raw text of the head of the ranking. *)
Lemma vote_select_top (candidates : list string) (c : string) :
  In c candidates -> votable c = true ->
  exists top rest,
    sorted_desc vote_key (vote_counts candidates) = top :: rest
    /\ _vote_select candidates = snd (snd top)
    /\ In top (vote_counts candidates).
Proof.
  intros Hin Hv.
  destruct (vote_counts_has candidates c Hin Hv) as (r & _ & Hentry).
  unfold _vote_select.
  destruct candidates as [| first others]; [destruct Hin |].
  destruct (sorted_desc vote_key (vote_counts (first :: others)))
    as [| top rest] eqn:Hs.
  - apply (sorted_desc_In vote_key) in Hentry. rewrite Hs in Hentry.
    destruct Hentry.
  - exists top, rest. repeat split.
    apply (sorted_desc_In vote_key). rewrite Hs. left. reflexivity.
Qed.

Lemma vote_select_In (candidates : list string) :
  candidates <> [] -> In (_vote_select candidates) candidates.
Proof.
  intros Hne.
  destruct (existsb votable candidates) eqn:Hex.
  - apply existsb_exists in Hex. destruct Hex as (c & Hin & Hv).
    destruct (vote_select_top candidates c Hin Hv)
      as ([k [cnt r]] & rest & _ & -> & Htop).
    apply vote_counts_entry in Htop. destruct Htop as (_ & _ & Hf).
    apply first_raw_found in Hf. apply Hf.
  - assert (Hnone : forall x, In x candidates -> _normalize_for_vote x = "").
    { intros x Hx. apply truthy_false_iff.
      destruct (PyStr.truthy (_normalize_for_vote x)) eqn:E; [| reflexivity].
      assert (existsb votable candidates = true)
        by (apply existsb_exists; exists x; split; assumption).
      congruence. }
    destruct candidates as [| first others]; [congruence |].
    unfold _vote_select, vote_counts.
    rewrite vote_counts_all_skipped by exact Hnone. left. reflexivity.
Qed.

Lemma normalize_lower (s : string) :
  _normalize_for_vote (PyStr.lower s) = _normalize_for_vote s.
Proof.
  unfold _normalize_for_vote. rewrite strip_lower, lower_idem. reflexivity.
Qed.

(** X3: the vote is blind to letter case: two candidates that are equal
    once lowercased have the same normal form, so they are counted in the
    same group. *)
Theorem X3_normalize_case_blind :
  forall a b : string,
    PyStr.lower a = PyStr.lower b ->
    _normalize_for_vote a = _normalize_for_vote b
    /\ forall candidates,
         votes (_normalize_for_vote a) candidates
         = votes (_normalize_for_vote b) candidates.
Proof.
  intros a b H.
  assert (Heq : _normalize_for_vote a = _normalize_for_vote b).
  { rewrite <- (normalize_lower a), <- (normalize_lower b), H. reflexivity. }
  split; [exact Heq |]. intros candidates. rewrite Heq. reflexivity.
Qed.

Lemma X3_normalize_case_blind_witness :
  _normalize_for_vote "The  `Answer`" = _normalize_for_vote "THE  `ANSWER`".
Proof.
  apply (X3_normalize_case_blind "The  `Answer`" "THE  `ANSWER`").
  reflexivity.
Defined.

(** X4: after the counting loop, the entry of a non-empty normal form holds
    the number of candidates with that normal form and the first of them in
    candidate order; a normal form that no candidate has, and the empty
    normal form, have no entry. *)
Theorem X4_vote_counts :
  forall (candidates : list string) (n : string),
    (n <> "" ->
     dict_get n (vote_counts candidates)
     = match first_raw n candidates with
       | Some r => Some (votes n candidates, r)
       | None => None
       end)
    /\ dict_get "" (vote_counts candidates) = None
    /\ NoDup (dict_keys (vote_counts candidates)).
Proof.
  intros candidates n. split; [| split].
  - apply vote_counts_get.
  - unfold vote_counts. apply vote_fold_blank. reflexivity.
  - apply vote_counts_keys_NoDup.
Qed.

Lemma X4_vote_counts_witness :
  dict_get "yes" (vote_counts ["Yes"; "no"; " YES "; "```"; "yes"])
  = Some (3, "Yes").
Proof.
  destruct (X4_vote_counts ["Yes"; "no"; " YES "; "```"; "yes"] "yes")
    as [H _].
  apply H. discriminate.
Defined.

(** X5: on a non-empty list the reconciler returns one of the candidates,
    as it was given; when some candidate has a non-empty normal form, the
    one returned is the first candidate of its group. *)
Theorem X5_vote_select_returns_candidate :
  forall candidates : list string,
    candidates <> [] ->
    In (_vote_select candidates) candidates
    /\ ((exists c, In c candidates /\ _normalize_for_vote c <> "") ->
        first_raw (_normalize_for_vote (_vote_select candidates)) candidates
        = Some (_vote_select candidates)).
Proof.
  intros candidates Hne. split; [apply vote_select_In; exact Hne |].
  intros (c & Hin & Hn). apply truthy_true_iff in Hn.
  destruct (vote_select_top candidates c Hin Hn)
    as ([k [cnt r]] & rest & _ & -> & Htop).
  apply vote_counts_entry in Htop. destruct Htop as (_ & _ & Hf). simpl.
  destruct (first_raw_found _ _ _ Hf) as [_ Hk]. rewrite Hk. exact Hf.
Qed.

Lemma X5_vote_select_returns_candidate_witness :
  In (_vote_select ["b"; "A"; "a "; "B"; "a"]) ["b"; "A"; "a "; "B"; "a"]
  /\ _vote_select ["b"; "A"; "a "; "B"; "a"] = "A".
Proof.
  split; [| reflexivity].
  apply (X5_vote_select_returns_candidate ["b"; "A"; "a "; "B"; "a"]).
  discriminate.
Defined.

(** X6: no group has more votes than the group of the returned text; among
    groups with as many votes, none has a longer first text; so a group with
    strictly more votes than every other group wins. *)
Theorem X6_vote_select_majority :
  forall (candidates : list string) (c : string),
    In c candidates ->
    _normalize_for_vote c <> "" ->
    let winner := _vote_select candidates in
    votes (_normalize_for_vote c) candidates
    <= votes (_normalize_for_vote winner) candidates
    /\ (votes (_normalize_for_vote c) candidates
        = votes (_normalize_for_vote winner) candidates ->
        forall r, first_raw (_normalize_for_vote c) candidates = Some r ->
                  String.length r <= String.length winner)
    /\ ((forall c', In c' candidates ->
                    _normalize_for_vote c' <> _normalize_for_vote c ->
                    votes (_normalize_for_vote c') candidates
                    < votes (_normalize_for_vote c) candidates) ->
        _normalize_for_vote winner = _normalize_for_vote c).
Proof.
  intros candidates c Hin Hn winner. apply truthy_true_iff in Hn.
  destruct (vote_select_top candidates c Hin Hn)
    as ([k [cnt r]] & rest & Hs & Hw & Htop).
  destruct (vote_counts_entry _ _ _ _ Htop) as (_ & Hcnt & Hf).
  destruct (first_raw_found _ _ _ Hf) as [Hrin Hk].
  destruct (vote_counts_has candidates c Hin Hn) as (rc & Hfc & Hentry).
  pose proof (sorted_desc_head vote_key _ _ _ Hs _ Hentry) as Hle.
  unfold key_le, vote_key in Hle. simpl in Hle, Hw.
  unfold winner. rewrite Hw, Hk. subst cnt.
  split; [lia | split].
  - intros Heq r' Hr'. rewrite Hfc in Hr'. injection Hr' as <-. lia.
  - intros Hstrict.
    destruct (string_dec k (_normalize_for_vote c)) as [Hsame | Hdiff];
      [exact Hsame |].
    rewrite <- Hk in Hdiff. specialize (Hstrict r Hrin Hdiff).
    rewrite Hk in Hstrict. lia.
Qed.

Lemma X6_vote_select_majority_witness :
  _normalize_for_vote (_vote_select ["Rome"; "paris"; "Paris "; "London"])
  = _normalize_for_vote "paris".
Proof.
  apply (X6_vote_select_majority ["Rome"; "paris"; "Paris "; "London"] "paris").
  - right. left. reflexivity.
  - discriminate.
  - intros c' [<- | [<- | [<- | [<- | []]]]] Hne; vm_compute;
      try lia; exfalso; apply Hne; reflexivity.
Defined.

(** ** Provider order and active providers *)

Lemma dict_mem_names (p : string) :
  dict_mem p _PROVIDER_FUNCS = true <-> In p provider_names.
Proof.
  unfold dict_mem, provider_names.
  destruct (dict_get p _PROVIDER_FUNCS) eqn:Hg.
  - split; [intros _ | reflexivity].
    destruct (in_dec string_dec p (dict_keys _PROVIDER_FUNCS)) as [H | H];
      [exact H |].
    apply dict_get_None_keys in H. congruence.
  - split; [discriminate |]. intros H.
    apply dict_get_None_keys in Hg. contradiction.
Qed.

Lemma env_order_known (w : World) :
  env_order w <> [] /\ forall p, In p (env_order w) -> In p provider_names.
Proof.
  unfold env_order.
  set (order := if PyStr.truthy _ then _ else _).
  assert (Hknown : forall p, In p order -> In p provider_names).
  { unfold order. destruct (PyStr.truthy _); [| intros p []].
    intros p Hp. apply in_map_iff in Hp. destruct Hp as (x & <- & Hx).
    apply filter_In in Hx. apply dict_mem_names. apply Hx. }
  destruct order as [| p0 order'].
  - split; [discriminate |]. intros p Hp. simpl in Hp.
    unfold provider_names. simpl. tauto.
  - split; [discriminate | exact Hknown].
Qed.

(** X7: the provider order is never empty and names only known providers:
    a known forced provider is the whole order, and an unknown or empty
    forced name, like unknown names in PROVIDER_ORDER, is ignored. *)
Theorem X7_provider_order :
  forall (w : World) (force_provider : option string),
    _provider_order w force_provider <> []
    /\ (forall p, In p (_provider_order w force_provider) ->
                  In p provider_names)
    /\ (forall fp, force_provider = Some fp ->
          (In fp provider_names -> _provider_order w force_provider = [fp])
          /\ (~ In fp provider_names ->
              _provider_order w force_provider = _provider_order w None)).
Proof.
  intros w force_provider.
  destruct (env_order_known w) as [Hne Hknown].
  unfold _provider_order.
  destruct force_provider as [fp |].
  - destruct (PyStr.truthy fp && dict_mem fp _PROVIDER_FUNCS) eqn:E.
    + apply andb_true_iff in E. destruct E as [_ Hmem].
      apply dict_mem_names in Hmem.
      split; [discriminate | split].
      * intros p [<- | []]. exact Hmem.
      * intros fp' Heq. injection Heq as <-.
        split; [reflexivity | contradiction].
    + split; [exact Hne | split; [exact Hknown |]].
      intros fp' Heq. injection Heq as <-.
      split; [| reflexivity].
      intros Hin. exfalso.
      assert (Ht : PyStr.truthy fp = true).
      { unfold provider_names in Hin. simpl in Hin.
        destruct Hin as [<- | [<- | [<- | [<- | [<- | []]]]]]; reflexivity. }
      apply dict_mem_names in Hin. rewrite Ht, Hin in E. discriminate E.
  - split; [exact Hne | split; [exact Hknown |]]. intros fp H. discriminate H.
Qed.

Lemma active_providers_filter (w : World) (order : list string) :
  _active_providers w order
  = filter (fun p => str_in p order && has_key w p) provider_names.
Proof.
  unfold _active_providers, provider_names, dict_keys, _PROVIDER_FUNCS.
  cbn [map fst filter]. unfold has_key.
  cbn [String.eqb Ascii.eqb Bool.eqb].
  destruct (str_in "openai" order && env_set w "OPENAI_API_KEY");
    destruct (str_in "anthropic" order && env_set w "ANTHROPIC_API_KEY");
    destruct (str_in "google" order
              && (env_set w "GOOGLE_API_KEY" || env_set w "GEMINI_API_KEY"));
    destruct (str_in "mistral" order && env_set w "MISTRAL_API_KEY");
    destruct (str_in "cohere" order && env_set w "COHERE_API_KEY");
    reflexivity.
Qed.

Lemma provider_names_NoDup : NoDup provider_names.
Proof.
  unfold provider_names. simpl.
  repeat constructor; simpl; intuition discriminate.
Qed.

Lemma active_providers_NoDup (w : World) (order : list string) :
  NoDup (_active_providers w order).
Proof.
  rewrite active_providers_filter. apply NoDup_filter.
  apply provider_names_NoDup.
Qed.

(** X8: the active providers are the five known providers, in the fixed
    order openai, anthropic, google, mistral, cohere, restricted to those
    named in the order that have a credential: each appears at most once,
    and the position of a name in the order, or its repetition, changes
    nothing. *)
Theorem X8_active_providers :
  forall (w : World) (order order' : list string),
    _active_providers w order
    = filter (fun p => str_in p order && has_key w p)
             ["openai"; "anthropic"; "google"; "mistral"; "cohere"]
    /\ NoDup (_active_providers w order)
    /\ ((forall p, In p order <-> In p order') ->
        _active_providers w order = _active_providers w order').
Proof.
  intros w order order'. split; [| split].
  - apply active_providers_filter.
  - apply active_providers_NoDup.
  - intros Hsame. rewrite !active_providers_filter.
    apply filter_ext. intros p. f_equal.
    destruct (str_in p order) eqn:E.
    + symmetry. apply str_in_In. apply Hsame. apply str_in_In. exact E.
    + destruct (str_in p order') eqn:E'; [| reflexivity].
      apply str_in_In in E'. apply Hsame in E'. apply str_in_In in E'.
      congruence.
Qed.

Lemma X8_active_providers_witness :
  _active_providers world_openai_down ["cohere"; "anthropic"; "openai"]
  = _active_providers world_openai_down
      ["openai"; "anthropic"; "anthropic"; "cohere"]
  /\ _active_providers world_openai_down ["cohere"; "anthropic"; "openai"]
     = ["openai"; "anthropic"].
Proof.
  split; [| reflexivity].
  apply (X8_active_providers world_openai_down
           ["cohere"; "anthropic"; "openai"]
           ["openai"; "anthropic"; "anthropic"; "cohere"]).
  intros p. simpl. tauto.
Defined.

(** ** What a request posts and how it labels its answer *)

Lemma submit_all_posts (w : World) (active : list string) (prompt : string) :
  (forall p, In p active -> In p provider_names /\ has_key w p = true) ->
  forall st,
    posts (snd (submit_all w active prompt st)) = posts st ++ active.
Proof.
  induction active as [| p ps IH]; intros H st; simpl.
  - rewrite app_nil_r. reflexivity.
  - destruct (H p (or_introl eq_refl)) as [Hp Hk].
    pose proof (call_provider_posts w p prompt st Hp Hk) as Hst1.
    destruct (call_provider w p prompt st) as [o st1]. simpl in Hst1.
    specialize (IH (fun x Hx => H x (or_intror Hx)) st1).
    destruct (submit_all w ps prompt st1) as [futures st2]. simpl in *.
    rewrite IH, Hst1. simpl. rewrite <- app_assoc. reflexivity.
Qed.

Lemma active_keyed (w : World) (order : list string) (p : string) :
  In p (_active_providers w order) ->
  In p provider_names /\ has_key w p = true.
Proof.
  intros H. apply active_providers_spec in H. tauto.
Qed.

Lemma active_length (w : World) (order : list string) :
  List.length (_active_providers w order) <= 5.
Proof.
  rewrite active_providers_filter.
  apply (filter_length_le _ provider_names).
Qed.

(** X9: a request posts only to providers that are known and have a
    credential, at most five times in all, and a request answered by the
    math, fact or memory stage posts to nobody. *)
Theorem X9_posts_only_to_keyed_providers :
  forall (w : World) (question : string) (force_provider : option string)
         (context : string) (st : State),
    let r := answer_question w question force_provider context st in
    exists sent,
      posts (snd r) = posts st ++ sent
      /\ (forall p, In p sent -> In p provider_names /\ has_key w p = true)
      /\ List.length sent <= 5
      /\ (In (provider (fst r)) ["local-math"; "local-facts"; "local-memory"] ->
          sent = []).
Proof.
  intros w question force_provider context st r.
  assert (Hlocal : forall a label mem M,
             exists sent,
               posts (snd (local_answer a label mem, set_memory M st))
               = posts st ++ sent
               /\ (forall p, In p sent ->
                             In p provider_names /\ has_key w p = true)
               /\ List.length sent <= 5
               /\ (In label ["local-math"; "local-facts"; "local-memory"] ->
                   sent = [])).
  { intros. exists []. simpl. rewrite app_nil_r.
    repeat split; try lia; intros p []. }
  unfold r, answer_question.
  destruct (PyStr.truthy (_math_try _ _)); [apply (Hlocal _ "local-math") |].
  destruct (capital_lookup _); [apply (Hlocal _ "local-facts") |].
  destruct (facts_scan _ _); [apply (Hlocal _ "local-facts") |].
  destruct (memory_lookup _ _).
  { exists []. simpl. rewrite app_nil_r.
    repeat split; try lia; intros p []. }
  set (q := PyStr.strip question).
  unfold provider_stage.
  set (prompt := make_prompt q context).
  set (active := _active_providers w (_provider_order w force_provider)).
  assert (Hkeyed : forall p, In p active ->
                             In p provider_names /\ has_key w p = true)
    by (intros p; apply active_keyed).
  assert (Hnames : forall u, In u provider_names ->
             ~ In u ["local-math"; "local-facts"; "local-memory"]).
  { intros u Hu. unfold provider_names in Hu. simpl in Hu. simpl.
    intuition (subst; discriminate). }
  assert (Hens : forall st0 pre,
             posts st0 = posts st ++ pre ->
             (forall p, In p pre -> In p provider_names /\ has_key w p = true) ->
             List.length (pre ++ active) <= 5 ->
             exists sent,
               posts (snd (ensemble w q prompt active st0)) = posts st ++ sent
               /\ (forall p, In p sent ->
                             In p provider_names /\ has_key w p = true)
               /\ List.length sent <= 5
               /\ (In (provider (fst (ensemble w q prompt active st0)))
                      ["local-math"; "local-facts"; "local-memory"] ->
                   sent = [])).
  { intros st0 pre Hst0 Hpre Hlen. exists (pre ++ active).
    rewrite ensemble_posts, submit_all_posts by exact Hkeyed.
    rewrite Hst0, <- app_assoc.
    split; [reflexivity | split; [| split; [exact Hlen |]]].
    - intros p Hp. apply in_app_or in Hp.
      destruct Hp as [Hp | Hp]; [apply Hpre | apply Hkeyed]; exact Hp.
    - intros Hlab. exfalso.
      pose proof (ensemble_used w q prompt active st0) as Hused.
      unfold ensemble in Hlab, Hused.
      destruct (submit_all w active prompt st0) as [futures st1].
      destruct (collect_kept futures (as_completed w active) [] [] eq_refl)
        as [Hl _].
      destruct (collect futures (as_completed w active) [] [])
        as [answers used].
      simpl in Hl.
      destruct answers as [| a0 answers]; simpl in Hlab, Hused.
      + intuition discriminate.
      + destruct used as [| u used']; [discriminate Hl |].
        destruct (1 <? List.length (u :: used')).
        * intuition discriminate.
        * apply (Hnames u); [| exact Hlab].
          apply Hkeyed. apply (Hused u). left. reflexivity. }
  assert (Hplain : exists sent,
             posts (snd (ensemble w q prompt active st)) = posts st ++ sent
             /\ (forall p, In p sent ->
                           In p provider_names /\ has_key w p = true)
             /\ List.length sent <= 5
             /\ (In (provider (fst (ensemble w q prompt active st)))
                    ["local-math"; "local-facts"; "local-memory"] ->
                 sent = [])).
  { apply (Hens st []).
    - rewrite app_nil_r. reflexivity.
    - intros p [].
    - simpl. apply active_length. }
  destruct force_provider as [fp |]; [| exact Hplain].
  destruct (PyStr.truthy fp && str_in fp active) eqn:Hforced; [| exact Hplain].
  apply andb_true_iff in Hforced. destruct Hforced as [_ Hin].
  apply str_in_In in Hin.
  destruct (Hkeyed fp Hin) as [Hp Hk].
  assert (Hactive : active = [fp]).
  { unfold active. rewrite forced_active by exact Hp. rewrite Hk. reflexivity. }
  pose proof (call_provider_posts w fp prompt st Hp Hk) as Hst1.
  destruct (call_provider w fp prompt st) as [o st1]. simpl in Hst1.
  assert (Hafter : exists sent,
             posts (snd (ensemble w q prompt active st1)) = posts st ++ sent
             /\ (forall p, In p sent ->
                           In p provider_names /\ has_key w p = true)
             /\ List.length sent <= 5
             /\ (In (provider (fst (ensemble w q prompt active st1)))
                    ["local-math"; "local-facts"; "local-memory"] ->
                 sent = [])).
  { apply (Hens st1 [fp]).
    - rewrite Hst1. reflexivity.
    - intros p [<- | []]. split; assumption.
    - rewrite Hactive. simpl. lia. }
  destruct o as [| [t |]]; try exact Hafter.
  destruct (PyStr.truthy t); [| exact Hafter].
  exists [fp]. simpl. rewrite Hst1.
  split; [reflexivity | split; [| split; [lia |]]].
  - intros p [<- | []]. split; assumption.
  - intros Hlab. exfalso. apply (Hnames fp Hp). exact Hlab.
Qed.

Lemma ensemble_label_fits (w : World) (q prompt : string)
      (active : list string) (st : State) :
  let a := fst (ensemble w q prompt active st) in
  label_fits a /\ mode a = "single" /\ from_memory a = false.
Proof.
  unfold ensemble.
  destruct (submit_all w active prompt st) as [futures st1].
  destruct (collect_kept futures (as_completed w active) [] [] eq_refl)
    as [Hl _].
  destruct (collect futures (as_completed w active) [] []) as [answers used].
  simpl in Hl.
  destruct answers as [| a0 answers]; simpl.
  - repeat split. unfold label_fits, local_labels. simpl. tauto.
  - repeat split. unfold label_fits. simpl.
    destruct used as [| u [| u' used']]; [discriminate Hl | |]; reflexivity.
Qed.

(** X10: every answer has mode single, and its provider label fits
    providers_used: with no provider used the label is local-math,
    local-facts, local-memory or none; with one it is that provider; with
    two or more it is ensemble.  Only an answer labelled local-memory has
    from_memory set. *)
Theorem X10_answer_label_fits :
  forall (w : World) (question : string) (force_provider : option string)
         (context : string) (st : State),
    let a := fst (answer_question w question force_provider context st) in
    mode a = "single"
    /\ label_fits a
    /\ (from_memory a = true ->
        provider a = "local-memory" /\ providers_used a = []).
Proof.
  intros w question force_provider context st.
  assert (Hloc : forall x label mem,
             In label local_labels ->
             label_fits (local_answer x label mem))
    by (intros; exact H).
  unfold answer_question.
  destruct (PyStr.truthy (_math_try _ _)).
  { simpl. split; [reflexivity | split; [| discriminate]].
    apply (Hloc _ "local-math" false). simpl. tauto. }
  destruct (capital_lookup _).
  { simpl. split; [reflexivity | split; [| discriminate]].
    apply (Hloc _ "local-facts" false). simpl. tauto. }
  destruct (facts_scan _ _).
  { simpl. split; [reflexivity | split; [| discriminate]].
    apply (Hloc _ "local-facts" false). simpl. tauto. }
  destruct (memory_lookup _ _).
  { simpl. split; [reflexivity | split; [| intros _; split; reflexivity]].
    apply (Hloc _ "local-memory" true). simpl. tauto. }
  assert (Hens : forall prompt active st0,
             let a := fst (ensemble w (PyStr.strip question) prompt active st0) in
             mode a = "single" /\ label_fits a
             /\ (from_memory a = true ->
                 provider a = "local-memory" /\ providers_used a = [])).
  { intros prompt active st0.
    destruct (ensemble_label_fits w (PyStr.strip question) prompt active st0)
      as (Hfit & Hmode & Hmem).
    simpl. rewrite Hmem. repeat split; try assumption; discriminate. }
  unfold provider_stage.
  destruct force_provider as [fp |]; [| apply Hens].
  destruct (PyStr.truthy fp && str_in fp _); [| apply Hens].
  destruct (call_provider w fp _ st) as [o st1].
  destruct o as [| [t |]]; try apply Hens.
  destruct (PyStr.truthy t); [| apply Hens].
  simpl. split; [reflexivity | split; [reflexivity | discriminate]].
Qed.

(** ** One responder *)

Lemma collect_filter (futures : dict Outcome) (completed : list string) :
  forall answers used,
    collect futures completed answers used
    = (answers ++ map (kept_answer futures)
                      (filter (usable_at futures) completed),
       used ++ filter (usable_at futures) completed).
Proof.
  induction completed as [| c cs IH]; intros answers used; simpl.
  - rewrite !app_nil_r. reflexivity.
  - cbn [collect filter].
    assert (Hu : usable_at futures c
                 = match dict_get c futures with
                   | Some (Returned (Some resp)) => PyStr.truthy resp
                   | _ => false
                   end).
    { unfold usable_at.
      destruct (dict_get c futures) as [[| [resp |]] |]; reflexivity. }
    assert (Hk : forall resp,
               dict_get c futures = Some (Returned (Some resp)) ->
               kept_answer futures c = _strip_answer resp).
    { intros resp Hc. unfold kept_answer. rewrite Hc. reflexivity. }
    rewrite Hu.
    destruct (dict_get c futures) as [[| [resp |]] |]; try apply IH.
    destruct (PyStr.truthy resp); [| apply IH].
    rewrite IH. cbn [map]. rewrite (Hk resp eq_refl).
    rewrite <- !app_assoc. reflexivity.
Qed.

Lemma filter_only (f : string -> bool) (l : list string) (x : string) :
  NoDup l -> In x l -> f x = true ->
  (forall y, y <> x -> f y = false) ->
  filter f l = [x].
Proof.
  intros Hnd Hin Hx Hothers.
  induction l as [| y l IH]; [destruct Hin |].
  apply NoDup_cons_iff in Hnd. destruct Hnd as [Hy Hnd]. simpl.
  destruct (string_dec y x) as [-> | Hne].
  - rewrite Hx. f_equal.
    clear IH Hin. induction l as [| z l IHl]; [reflexivity |]. simpl.
    rewrite Hothers.
    + apply IHl.
      * intros H. apply Hy. right. exact H.
      * apply NoDup_cons_iff in Hnd. apply Hnd.
    + intros ->. apply Hy. left. reflexivity.
  - rewrite (Hothers y Hne). apply IH; [exact Hnd |].
    destruct Hin as [-> | Hin]; [congruence | exact Hin].
Qed.

Lemma vote_select_single (a : string) : _vote_select [a] = a.
Proof.
  assert (H : In (_vote_select [a]) [a])
    by (apply vote_select_In; discriminate).
  destruct H as [H | []]. symmetry. exact H.
Qed.

(** X11: when the fast path misses, no provider is forced and exactly one
    active provider completes with a non-empty str (the others raise,
    return nothing or return the empty string), the answer is that
    completion, passed through [_strip_answer], labelled with that provider
    alone and not with ensemble. *)
Theorem X11_single_responder :
  forall (w : World) (question context : string) (st : State)
         (p0 resp : string),
    let q := PyStr.strip question in
    let ql := PyStr.lower q in
    let active := _active_providers w (_provider_order w None) in
    let futures := fst (submit_all w active (make_prompt q context) st) in
    _math_try (sympify_evalf w) ql = "" ->
    facts_lookup ql = None ->
    memory_lookup (MEMORY st) ql = None ->
    World_ok w ->
    dict_get p0 futures = Some (Returned (Some resp)) ->
    resp <> "" ->
    (forall p, p <> p0 -> usable_at futures p = false) ->
    fst (answer_question w question None context st)
    = {| mode := "single"; answer := _strip_answer resp; provider := p0;
         providers_used := [p0]; from_memory := false |}.
Proof.
  intros w question context st p0 resp q ql active futures
         Hm Hfacts Hmem Hw Hget Hresp Hothers.
  rewrite answer_question_slow_path by assumption.
  unfold provider_stage, ensemble. fold q. fold active.
  assert (Hin : In p0 active).
  { apply (submit_all_outcomes w active (make_prompt q context) st p0 _ Hget). }
  unfold futures in *.
  destruct (submit_all w active (make_prompt q context) st)
    as [fut st1]. simpl in *.
  rewrite collect_filter. simpl.
  assert (Hkept : filter (usable_at fut) (as_completed w active) = [p0]).
  { apply filter_only.
    - apply (Permutation_NoDup (Permutation_sym (Hw active))).
      apply active_providers_NoDup.
    - apply (Permutation_in p0 (Permutation_sym (Hw active))). exact Hin.
    - unfold usable_at. rewrite Hget. simpl. apply truthy_true_iff. exact Hresp.
    - exact Hothers. }
  rewrite Hkept. cbn [map fst]. unfold kept_answer. rewrite Hget.
  rewrite vote_select_single. reflexivity.
Qed.

Lemma X11_single_responder_witness :
  fst (answer_question world_openai_down "Why is the sky blue?" None ""
                       fresh)
  = {| mode := "single"; answer := _strip_answer "Answer: Paris";
       provider := "anthropic"; providers_used := ["anthropic"];
       from_memory := false |}.
Proof.
  apply (X11_single_responder world_openai_down "Why is the sky blue?" ""
           fresh "anthropic" "Answer: Paris");
    try reflexivity.
  - intros l. apply Permutation_sym. apply Permutation_rev.
  - discriminate.
  - intros p Hp.
    change (usable_at [("openai", Returned None);
                       ("anthropic", Returned (Some "Answer: Paris"))] p
            = false).
    unfold usable_at. cbn [dict_get].
    destruct (String.eqb_spec "openai" p) as [_ | _]; [reflexivity |].
    destruct (String.eqb_spec "anthropic" p) as [<- | _];
      [exfalso; apply Hp |]; reflexivity.
Defined.

(** ** Recall *)

Lemma memory_lookup_after_add (q a : string) (M : Memory) :
  q <> "" -> a <> "" ->
  memory_lookup (memory_add q a M) (PyStr.lower q) = Some a.
Proof.
  intros Hq Ha. apply truthy_true_iff in Hq, Ha.
  unfold memory_add, memory_lookup, deque_append. rewrite Hq, Ha. simpl andb.
  cbv iota.
  destruct (MEMORY_MAXLEN <=? List.length M);
    rewrite rev_app_distr; simpl; rewrite String.eqb_refl, Ha; reflexivity.
Qed.

(** The provider stage either ends in the sentinel or records its answer. *)
Lemma provider_stage_outcome (w : World) (q : string)
      (force_provider : option string) (context : string) (st : State) :
  let r := provider_stage w q force_provider context st in
  fst r = no_answer
  \/ MEMORY (snd r) = memory_add q (answer (fst r)) (MEMORY st).
Proof.
  assert (Hens : forall prompt active st0,
             MEMORY st0 = MEMORY st ->
             fst (ensemble w q prompt active st0) = no_answer
             \/ MEMORY (snd (ensemble w q prompt active st0))
                = memory_add q (answer (fst (ensemble w q prompt active st0)))
                             (MEMORY st)).
  { intros prompt active st0 Hst0. unfold ensemble.
    pose proof (submit_all_memory w active prompt st0) as Hmem.
    destruct (submit_all w active prompt st0) as [futures st1].
    simpl in Hmem.
    destruct (collect futures (as_completed w active) [] [])
      as [answers used].
    destruct answers as [| a0 answers]; [left; reflexivity |].
    right. simpl. rewrite Hmem, Hst0. reflexivity. }
  unfold provider_stage.
  destruct force_provider as [fp |]; [| apply Hens; reflexivity].
  destruct (PyStr.truthy fp && str_in fp _); [| apply Hens; reflexivity].
  pose proof (call_provider_memory w fp (make_prompt q context) st) as Hmem.
  destruct (call_provider w fp (make_prompt q context) st) as [o st1].
  simpl in Hmem.
  destruct o as [| [t |]]; try (apply Hens; exact Hmem).
  destruct (PyStr.truthy t); [| apply Hens; exact Hmem].
  right. simpl. rewrite Hmem. reflexivity.
Qed.

(** X12: once a non-blank question has been given a non-empty answer other
    than the sentinel, asking it again, in any letter case, when it misses
    the math and fact stages, returns that answer from memory, whatever the
    providers would now say, and changes nothing. *)
Theorem X12_answer_is_recalled :
  forall (w w' : World) (question again : string)
         (force_provider force_provider' : option string)
         (context context' : string) (st : State),
    let q := PyStr.strip question in
    let ql := PyStr.lower q in
    let r := answer_question w question force_provider context st in
    q <> "" ->
    answer (fst r) <> "" ->
    provider (fst r) <> "none" ->
    PyStr.lower (PyStr.strip again) = ql ->
    _math_try (sympify_evalf w') ql = "" ->
    facts_lookup ql = None ->
    answer_question w' again force_provider' context' (snd r)
    = ({| mode := "single"; answer := answer (fst r);
          provider := "local-memory"; providers_used := [];
          from_memory := true |}, snd r).
Proof.
  intros w w' question again force_provider force_provider' context context'
         st q ql r Hq Hans Hprov Hagain Hm' Hfacts.
  assert (Hhit : memory_lookup (MEMORY (snd r)) ql = Some (answer (fst r))).
  { unfold r, answer_question in *. fold q in Hans, Hprov |- *.
    fold ql in Hans, Hprov |- *.
    destruct (PyStr.truthy (_math_try (sympify_evalf w) ql)).
    { simpl in *. apply memory_lookup_after_add; assumption. }
    unfold facts_lookup in Hfacts.
    destruct (capital_lookup ql); [discriminate Hfacts |].
    rewrite Hfacts in *.
    destruct (memory_lookup (MEMORY st) ql) as [aa |] eqn:Hl;
      [exact Hl |].
    destruct (provider_stage_outcome w q force_provider context st)
      as [Hnone | Hrec].
    - rewrite Hnone in Hprov. exfalso. apply Hprov. reflexivity.
    - rewrite Hrec. apply memory_lookup_after_add; assumption. }
  unfold answer_question at 1. rewrite Hagain, Hm'. simpl PyStr.truthy.
  cbv iota. unfold facts_lookup in Hfacts.
  destruct (capital_lookup ql); [discriminate Hfacts |].
  rewrite Hfacts, Hhit. reflexivity.
Qed.

Lemma X12_answer_is_recalled_witness :
  answer_question world_openai_down "  WHY is the sky blue?" (Some "openai") ""
    (snd (answer_question world_openai_down "Why is the sky blue?" None ""
                          fresh))
  = ({| mode := "single"; answer := "Paris"; provider := "local-memory";
        providers_used := []; from_memory := true |},
     {| MEMORY := [("Why is the sky blue?", "Paris")];
        posts := ["openai"; "anthropic"] |}).
Proof.
  apply (X12_answer_is_recalled world_openai_down world_openai_down
           "Why is the sky blue?" "  WHY is the sky blue?" None
           (Some "openai") "" "" fresh);
    try reflexivity; discriminate.
Defined.

(** ** Shingles and the range of the novelty score *)

Lemma counter_total_set (k : string) (v : nat) (d : Counter) :
  counter_total (dict_set k v d) + counter_get d k = counter_total d + v.
Proof.
  unfold counter_get.
  induction d as [| [k' v'] d IH]; simpl.
  - lia.
  - destruct (String.eqb k' k); simpl; lia.
Qed.

Lemma counter_total_add (c : Counter) (g : string) :
  counter_total (counter_add c g) = counter_total c + 1.
Proof.
  unfold counter_add.
  pose proof (counter_total_set g) as H. unfold counter_get in H.
  destruct (dict_get g c) as [n |] eqn:Hg.
  - specialize (H (n + 1) c). rewrite Hg in H. lia.
  - specialize (H 1 c). rewrite Hg in H. lia.
Qed.

Lemma Counter_of_total (grams : list string) :
  counter_total (Counter_of grams) = List.length grams.
Proof.
  unfold Counter_of.
  assert (H : forall c, counter_total (fold_left counter_add grams c)
                        = counter_total c + List.length grams).
  { induction grams as [| g gs IH]; intros c; simpl; [lia |].
    rewrite IH, counter_total_add. lia. }
  apply H.
Qed.

(** X13: the shingles of a text are counted with multiplicity: in all there
    are as many as the text has windows of [k] tokens, and none when the
    text has fewer than [k] tokens. *)
Theorem X13_shingles_total :
  forall (text : string) (k : nat),
    counter_total (_shingles text k)
    = List.length (shingle_tokens text) + 1 - k
    /\ (List.length (shingle_tokens text) < k -> _shingles text k = []).
Proof.
  intros text k. unfold _shingles.
  set (toks := shingle_tokens text).
  replace (Z.to_nat (Z.max 0 (Z.of_nat (List.length toks) - Z.of_nat k + 1)))
    with (List.length toks + 1 - k) by lia.
  split.
  - rewrite Counter_of_total, length_map, length_seq. reflexivity.
  - intros Hlt. replace (List.length toks + 1 - k) with 0 by lia. reflexivity.
Qed.

Lemma X13_shingles_total_witness :
  _shingles "too short here" 4 = []
  /\ counter_total (_shingles "a b a b a b a" 4) = 4.
Proof.
  destruct (X13_shingles_total "too short here" 4) as [_ Hnone].
  destruct (X13_shingles_total "a b a b a b a" 4) as [Htotal _].
  split; [apply Hnone; vm_compute; lia | exact Htotal].
Defined.

Lemma novelty_in_range (o t : nat) :
  1 <= t ->
  (0 < 1 / (1 + inject_Z (Z.of_nat o) / inject_Z (Z.of_nat t)))%Q
  /\ (1 / (1 + inject_Z (Z.of_nat o) / inject_Z (Z.of_nat t)) <= 1)%Q.
Proof.
  intros Ht.
  assert (Hpos : (0 < inject_Z (Z.of_nat t))%Q).
  { change 0%Q with (inject_Z 0). rewrite <- Zlt_Qlt. lia. }
  assert (Hx : (0 <= inject_Z (Z.of_nat o) / inject_Z (Z.of_nat t))%Q).
  { apply Qle_shift_div_l; [exact Hpos |].
    rewrite Qmult_0_l. change 0%Q with (inject_Z 0). rewrite <- Zle_Qle. lia. }
  set (x := (inject_Z (Z.of_nat o) / inject_Z (Z.of_nat t))%Q) in *.
  assert (Hden : (0 < 1 + x)%Q).
  { apply Qlt_le_trans with (1 + 0)%Q; [reflexivity |].
    apply Qplus_le_r. exact Hx. }
  split.
  - apply Qlt_shift_div_l; [exact Hden |]. rewrite Qmult_0_l. reflexivity.
  - apply Qle_shift_div_r; [exact Hden |]. rewrite Qmult_1_l.
    apply Qle_trans with (1 + 0)%Q; [apply Qle_refl |].
    apply Qplus_le_r. exact Hx.
Qed.

(** X14: the novelty score lies between 0 and 1, and it is 0 exactly for the
    texts with fewer than four tokens, whatever the pool. *)
Theorem X14_novelty_range :
  forall (text : PyObj) (corpus : list PyObj),
    (0 <= novelty_score text corpus)%Q
    /\ (novelty_score text corpus <= 1)%Q
    /\ (List.length (shingle_tokens (value text)) < 4 ->
        novelty_score text corpus = 0%Q)
    /\ (4 <= List.length (shingle_tokens (value text)) ->
        (0 < novelty_score text corpus)%Q).
Proof.
  intros text corpus.
  destruct (Nat.lt_ge_cases (List.length (shingle_tokens (value text))) 4)
    as [Hlt | Hge].
  - assert (H0 : novelty_score text corpus = 0%Q).
    { unfold novelty_score.
      destruct (negb (PyStr.truthy (value text))); [reflexivity |].
      rewrite shingles_empty by exact Hlt. reflexivity. }
    rewrite H0. repeat split; try discriminate; try reflexivity.
    intros Hge. lia.
  - rewrite novelty_score_value by exact Hge.
    destruct (novelty_in_range
                (novelty_overlap text (_shingles (value text) 4) corpus)
                (Nat.max (counter_total (_shingles (value text) 4)) 1))
      as [Hpos Hle]; [lia |].
    repeat split.
    + apply Qlt_le_weak. exact Hpos.
    + exact Hle.
    + intros Hlt. lia.
    + intros _. exact Hpos.
Qed.

Lemma overlap_fold_perm (text : PyObj) (s : Counter) (l l' : list PyObj) :
  Permutation l l' ->
  forall acc,
    fold_left (overlap_step text s) l acc
    = fold_left (overlap_step text s) l' acc.
Proof.
  induction 1 as [| x l l' _ IH | x y l | l l' l'' _ IH1 _ IH2];
    intros acc; simpl.
  - reflexivity.
  - apply IH.
  - f_equal. unfold overlap_step.
    destruct (negb (PyStr.truthy (value y)) || (addr y =? addr text));
      destruct (negb (PyStr.truthy (value x)) || (addr x =? addr text)); lia.
  - rewrite IH1. apply IH2.
Qed.

(** X15: the novelty score does not depend on the order of the pool. *)
Theorem X15_novelty_order_independent :
  forall (text : PyObj) (corpus corpus' : list PyObj),
    Permutation corpus corpus' ->
    novelty_score text corpus = novelty_score text corpus'.
Proof.
  intros text corpus corpus' Hperm. unfold novelty_score, novelty_overlap.
  destruct (negb (PyStr.truthy (value text))); [reflexivity |].
  destruct (_shingles (value text) 4) as [| e es]; [reflexivity |].
  rewrite (overlap_fold_perm text (e :: es) corpus corpus' Hperm 0).
  reflexivity.
Qed.

Lemma X15_novelty_order_independent_witness :
  novelty_score long_text [long_text; long_copy; other_text]
  = novelty_score long_text [other_text; long_copy; long_text].
Proof.
  apply (X15_novelty_order_independent long_text
           [long_text; long_copy; other_text]
           [other_text; long_copy; long_text]).
  apply (Permutation_rev [long_text; long_copy; other_text]).
Defined.

Lemma overlap_fold_shift (text : PyObj) (s : Counter) (l : list PyObj) :
  forall acc,
    fold_left (overlap_step text s) l acc
    = acc + fold_left (overlap_step text s) l 0.
Proof.
  induction l as [| x l IH]; intros acc; simpl; [lia |].
  rewrite IH, (IH (overlap_step text s 0 x)). unfold overlap_step.
  destruct (negb (PyStr.truthy (value x)) || (addr x =? addr text)); lia.
Qed.

Lemma novelty_antitone (o o' t : nat) :
  1 <= t -> o <= o' ->
  (1 / (1 + inject_Z (Z.of_nat o') / inject_Z (Z.of_nat t))
   <= 1 / (1 + inject_Z (Z.of_nat o) / inject_Z (Z.of_nat t)))%Q.
Proof.
  intros Ht Ho.
  assert (Hpos : (0 < inject_Z (Z.of_nat t))%Q).
  { change 0%Q with (inject_Z 0). rewrite <- Zlt_Qlt. lia. }
  assert (Hinv : (0 <= / inject_Z (Z.of_nat t))%Q).
  { apply Qlt_le_weak. apply Qinv_lt_0_compat. exact Hpos. }
  assert (Hx : (0 <= inject_Z (Z.of_nat o) / inject_Z (Z.of_nat t))%Q).
  { apply Qle_shift_div_l; [exact Hpos |].
    rewrite Qmult_0_l. change 0%Q with (inject_Z 0). rewrite <- Zle_Qle. lia. }
  assert (Hxy : (inject_Z (Z.of_nat o) / inject_Z (Z.of_nat t)
                 <= inject_Z (Z.of_nat o') / inject_Z (Z.of_nat t))%Q).
  { unfold Qdiv. apply Qmult_le_compat_r; [| exact Hinv].
    rewrite <- Zle_Qle. lia. }
  set (x := (inject_Z (Z.of_nat o) / inject_Z (Z.of_nat t))%Q) in *.
  set (y := (inject_Z (Z.of_nat o') / inject_Z (Z.of_nat t))%Q) in *.
  assert (Hdx : (0 < 1 + x)%Q).
  { apply Qlt_le_trans with (1 + 0)%Q; [reflexivity |].
    apply Qplus_le_r. exact Hx. }
  assert (Hdy : (0 < 1 + y)%Q).
  { apply Qlt_le_trans with (1 + x)%Q; [exact Hdx |].
    apply Qplus_le_r. exact Hxy. }
  apply Qle_shift_div_r; [exact Hdy |].
  unfold Qdiv. rewrite Qmult_1_l, Qmult_comm.
  apply Qle_shift_div_l; [exact Hdx |].
  rewrite Qmult_1_l. apply Qplus_le_r. exact Hxy.
Qed.

(** X16: adding a candidate to the pool never raises the novelty score of
    a text. *)
Theorem X16_novelty_larger_pool :
  forall (text extra : PyObj) (corpus : list PyObj),
    (novelty_score text (extra :: corpus) <= novelty_score text corpus)%Q.
Proof.
  intros text extra corpus.
  destruct (Nat.lt_ge_cases (List.length (shingle_tokens (value text))) 4)
    as [Hlt | Hge].
  - unfold novelty_score.
    destruct (negb (PyStr.truthy (value text))); [apply Qle_refl |].
    rewrite shingles_empty by exact Hlt. apply Qle_refl.
  - rewrite !novelty_score_value by exact Hge.
    apply novelty_antitone; [lia |].
    unfold novelty_overlap. cbn [fold_left].
    rewrite (overlap_fold_shift text _ corpus (overlap_step text _ 0 extra)).
    lia.
Qed.

(** ** The sequential ensemble of brain/providers.py *)

Section SequentialEnsemble.

Variable float_ok : string -> bool.
Variable int_ok : string -> bool.

Let chat_try := Providers.chat_try float_ok int_ok.
Let chat_loop := Providers.chat_loop float_ok int_ok.




(** X18: when PROVIDER_ORDER is set and names no known provider,
    [ensemble_chat] tries nobody and returns the empty text, whereas the
    order of [answer_question] falls back to the five defaults. *)
Theorem X18_unknown_order :
  forall (w : World) (prompt env : string) (st : State),
    getenv w "PROVIDER_ORDER" = Some env ->
    (forall p, In p (PyStr.split_on "," env) ->
               ~ In (PyStr.strip p) provider_names) ->
    Providers.ensemble_chat float_ok int_ok w prompt st = ("", st)
    /\ _provider_order w None
       = ["openai"; "anthropic"; "google"; "mistral"; "cohere"].
Proof.
  intros w prompt env st Henv Hunknown.
  assert (Hnone : filter (fun p => dict_mem (PyStr.strip p) _PROVIDER_FUNCS)
                         (PyStr.split_on "," env) = []).
  { assert (H : forall l,
               (forall p, In p l -> ~ In (PyStr.strip p) provider_names) ->
               filter (fun p => dict_mem (PyStr.strip p) _PROVIDER_FUNCS) l
               = []).
    { induction l as [| x l IHl]; intros Hl; simpl; [reflexivity |].
      destruct (dict_mem (PyStr.strip x) _PROVIDER_FUNCS) eqn:E.
      - apply dict_mem_names in E. exfalso. apply (Hl x); [left |]; tauto.
      - apply IHl. intros p Hp. apply Hl. right. exact Hp. }
    apply H. exact Hunknown. }
  split.
  - unfold Providers.ensemble_chat, Providers._order,
      Providers.getenv_default.
    rewrite Henv.
    assert (Hsame : forall p,
               dict_mem (PyStr.strip p) (Providers._FUNCS float_ok int_ok)
               = dict_mem (PyStr.strip p) _PROVIDER_FUNCS).
    { intros p. unfold dict_mem. cbn [dict_get Providers._FUNCS _PROVIDER_FUNCS].
      repeat match goal with
             | |- context [String.eqb ?a (PyStr.strip p)] =>
                 destruct (String.eqb a (PyStr.strip p))
             end; reflexivity. }
    rewrite (filter_ext _ _ Hsame), Hnone. reflexivity.
  - unfold _provider_order, env_order. rewrite Henv.
    destruct (PyStr.truthy env); [rewrite Hnone |]; reflexivity.
Qed.

End SequentialEnsemble.

(** ** [api_ask] *)

(** How a request leaves the ring buffer: as it was after a memory hit or
    the sentinel, with the answer recorded otherwise. *)
Lemma answer_question_outcome (w : World) (question : string)
      (force_provider : option string) (context : string) (st : State) :
  let r := answer_question w question force_provider context st in
  (fst r = no_answer /\ MEMORY (snd r) = MEMORY st)
  \/ (provider (fst r) = "local-memory" /\ snd r = st)
  \/ (MEMORY (snd r)
      = memory_add (PyStr.strip question) (answer (fst r)) (MEMORY st)
      /\ provider (fst r) <> "local-memory").
Proof.
  unfold answer_question.
  destruct (PyStr.truthy (_math_try _ _));
    [right; right; split; [reflexivity | discriminate] |].
  destruct (capital_lookup _);
    [right; right; split; [reflexivity | discriminate] |].
  destruct (facts_scan _ _);
    [right; right; split; [reflexivity | discriminate] |].
  destruct (memory_lookup _ _); [right; left; split; reflexivity |].
  set (q := PyStr.strip question).
  assert (Hens : forall prompt active st0,
             MEMORY st0 = MEMORY st ->
             (forall p, In p active -> In p provider_names) ->
             let r := ensemble w q prompt active st0 in
             (fst r = no_answer /\ MEMORY (snd r) = MEMORY st)
             \/ (provider (fst r) = "local-memory" /\ snd r = st)
             \/ (MEMORY (snd r) = memory_add q (answer (fst r)) (MEMORY st)
                 /\ provider (fst r) <> "local-memory")).
  { intros prompt active st0 Hst0 Hact.
    pose proof (ensemble_used w q prompt active st0) as Hused.
    unfold ensemble in *.
    pose proof (submit_all_memory w active prompt st0) as Hmem.
    destruct (submit_all w active prompt st0) as [futures st1].
    simpl in Hmem.
    destruct (collect_kept futures (as_completed w active) [] [] eq_refl)
      as [Hl _].
    destruct (collect futures (as_completed w active) [] [])
      as [answers used].
    simpl in Hl.
    destruct answers as [| a0 answers]; simpl.
    - left. split; [reflexivity | congruence].
    - right. right. split; [rewrite Hmem, Hst0; reflexivity |].
      destruct used as [| u used']; [discriminate Hl |].
      destruct (1 <? List.length (u :: used')); [discriminate |].
      simpl in Hused. intros ->.
      assert (Hu : In "local-memory" provider_names).
      { apply Hact. apply (Hused "local-memory"). left. reflexivity. }
      unfold provider_names in Hu. simpl in Hu. intuition discriminate. }
  assert (Hact : forall order p,
             In p (_active_providers w order) -> In p provider_names)
    by (intros order p Hp; apply (active_keyed w order p Hp)).
  unfold provider_stage.
  destruct force_provider as [fp |];
    [| apply Hens; [reflexivity | apply Hact]].
  destruct (PyStr.truthy fp && str_in fp _) eqn:Hforced;
    [| apply Hens; [reflexivity | apply Hact]].
  apply andb_true_iff in Hforced. destruct Hforced as [_ Hin].
  apply str_in_In in Hin. apply Hact in Hin.
  pose proof (call_provider_memory w fp (make_prompt q context) st) as Hmem.
  destruct (call_provider w fp (make_prompt q context) st) as [o st1].
  simpl in Hmem.
  destruct o as [| [t |]]; try (apply Hens; [exact Hmem | apply Hact]).
  destruct (PyStr.truthy t); [| apply Hens; [exact Hmem | apply Hact]].
  right. right. simpl. split; [rewrite Hmem; reflexivity |].
  intros ->. unfold provider_names in Hin. simpl in Hin.
  intuition discriminate.
Qed.

Lemma memory_add_last (q a : string) (M : Memory) :
  q <> "" -> a <> "" -> exists M', memory_add q a M = M' ++ [(q, a)].
Proof.
  intros Hq Ha. apply truthy_true_iff in Hq, Ha.
  unfold memory_add, deque_append. rewrite Hq, Ha. simpl andb. cbv iota.
  destruct (MEMORY_MAXLEN <=? List.length M); eexists; reflexivity.
Qed.

Section Ask.

Variable float_ok : string -> bool.
Variable int_ok : string -> bool.
Variable rag_query : string -> list string.

Let ask := api_ask float_ok int_ok rag_query.

(** X19: [api_ask] never replies with an empty answer.  A blank message is
    turned away with a fixed reply and changes nothing; for any other
    message the reply is recorded as the most recent pair of the ring
    buffer, under the trimmed message. *)
Theorem X19_api_ask_reply :
  forall (w : World) (message : string) (st : State),
    let r := ask w message st in
    fst (fst r) <> ""
    /\ (PyStr.strip message = "" ->
        r = (("Please type a question.", "none"), st))
    /\ (PyStr.strip message <> "" ->
        exists older,
          MEMORY (snd r) = older ++ [(PyStr.strip message, fst (fst r))]).
Proof.
  intros w message st. unfold ask, api_ask.
  set (q := PyStr.strip message).
  destruct (PyStr.truthy q) eqn:Hq; simpl negb; cbv iota.
  - apply truthy_true_iff in Hq.
    destruct (answer_question w q None "" st) as [local st1].
    destruct (PyStr.truthy (answer local)) eqn:Ha.
    + apply truthy_true_iff in Ha. simpl.
      split; [exact Ha | split; [contradiction |]].
      intros _. apply memory_add_last; assumption.
    + destruct (Providers.ensemble_chat _ _ _ _ _) as [out st2].
      destruct (PyStr.truthy (PyStr.strip out)) eqn:Ho; simpl.
      * apply truthy_true_iff in Ho.
        split; [exact Ho | split; [contradiction |]].
        intros _. apply memory_add_last; assumption.
      * split; [discriminate | split; [contradiction |]].
        intros _. apply memory_add_last; [assumption | discriminate].
  - apply truthy_false_iff in Hq. simpl.
    split; [discriminate | split; [reflexivity | contradiction]].
Qed.

(** X20: an answer of the math, fact or provider stage is recorded twice,
    once by [answer_question] and once more by [api_ask]; an answer
    recalled from memory is recorded once more. *)
Theorem X20_api_ask_records_twice :
  forall (w : World) (message : string) (st : State),
    let q := PyStr.strip message in
    let local := fst (answer_question w q None "" st) in
    q <> "" ->
    answer local <> "" ->
    provider local <> "none" ->
    fst (ask w message st) = (answer local, provider local)
    /\ (provider local <> "local-memory" ->
        MEMORY (snd (ask w message st))
        = memory_add q (answer local) (memory_add q (answer local) (MEMORY st)))
    /\ (provider local = "local-memory" ->
        MEMORY (snd (ask w message st))
        = memory_add q (answer local) (MEMORY st)).
Proof.
  intros w message st q local Hq Ha Hp.
  pose proof (answer_question_outcome w q None "" st) as Hout.
  unfold ask, api_ask. fold q.
  apply truthy_true_iff in Hq. rewrite Hq. simpl negb. cbv iota.
  unfold local in *.
  destruct (answer_question w q None "" st) as [loc st1]. simpl in *.
  apply truthy_true_iff in Ha. rewrite Ha. simpl.
  split; [reflexivity |].
  assert (Hqq : PyStr.strip q = q) by apply strip_idem.
  rewrite Hqq in Hout.
  destruct Hout as [[Hnone _] | [[Hmem Hst] | [Hrec Hnot]]].
  - rewrite Hnone in Hp. exfalso. apply Hp. reflexivity.
  - split; [intros Hne; contradiction |]. intros _. rewrite Hst. reflexivity.
  - split; [intros _; rewrite Hrec; reflexivity | intros Heq; contradiction].
Qed.

(** X21: when [answer_question] ends in the sentinel, [api_ask] replies
    with it and records it; the same message asked again, if it misses the
    math and fact stages, is then answered from memory with the sentinel
    and no provider is contacted, whatever the providers would now say. *)
Theorem X21_api_ask_remembers_sentinel :
  forall (w w' : World) (message : string) (st : State),
    let q := PyStr.strip message in
    let ql := PyStr.lower q in
    let first := ask w message st in
    let second := ask w' message (snd first) in
    q <> "" ->
    fst (answer_question w q None "" st) = no_answer ->
    _math_try (sympify_evalf w') ql = "" ->
    facts_lookup ql = None ->
    fst first = ("I don't have an exact answer yet for that.", "none")
    /\ fst second
       = ("I don't have an exact answer yet for that.", "local-memory")
    /\ posts (snd second) = posts (snd first).
Proof.
  intros w w' message st q ql first second Hq Hnone Hm Hfacts.
  assert (Hqq : PyStr.strip q = q) by apply strip_idem.
  assert (Htq : PyStr.truthy q = true) by (apply truthy_true_iff; exact Hq).
  assert (Hfirst : first
                   = (("I don't have an exact answer yet for that.", "none"),
                      set_memory
                        (memory_add q
                           "I don't have an exact answer yet for that."
                           (MEMORY (snd (answer_question w q None "" st))))
                        (snd (answer_question w q None "" st)))).
  { unfold first, ask, api_ask. fold q. rewrite Htq. simpl negb. cbv iota.
    destruct (answer_question w q None "" st) as [loc st1].
    simpl in Hnone. subst loc. reflexivity. }
  split; [rewrite Hfirst; reflexivity |].
  set (st1 := snd first).
  assert (Hlook : memory_lookup (MEMORY st1) ql
                  = Some "I don't have an exact answer yet for that.").
  { unfold st1. rewrite Hfirst. simpl.
    apply memory_lookup_after_add; [exact Hq | discriminate]. }
  assert (Hsecond : answer_question w' q None "" st1
                    = (local_answer
                         "I don't have an exact answer yet for that."
                         "local-memory" true, st1)).
  { unfold answer_question. rewrite Hqq. fold ql. rewrite Hm.
    simpl PyStr.truthy. cbv iota. unfold facts_lookup in Hfacts.
    destruct (capital_lookup ql); [discriminate Hfacts |].
    rewrite Hfacts, Hlook. reflexivity. }
  unfold second, ask, api_ask. fold q. fold st1.
  rewrite Htq. simpl negb. cbv iota. rewrite Hsecond. simpl.
  split; reflexivity.
Qed.

End Ask.

(** ** Examples of the further properties *)

Lemma X7_provider_order_witness :
  _provider_order world_custom_order (Some "mistral") = ["mistral"]
  /\ _provider_order world_custom_order (Some "bogus")
     = _provider_order world_custom_order None
  /\ _provider_order world_custom_order None = ["cohere"; "openai"].
Proof.
  destruct (X7_provider_order world_custom_order (Some "mistral"))
    as (_ & _ & Hknown).
  destruct (X7_provider_order world_custom_order (Some "bogus"))
    as (_ & _ & Hunknown).
  split; [| split; [| reflexivity]].
  - apply (Hknown "mistral" eq_refl). unfold provider_names. simpl. tauto.
  - apply (Hunknown "bogus" eq_refl). unfold provider_names. simpl.
    intuition discriminate.
Defined.


Lemma X18_unknown_order_witness :
  Providers.ensemble_chat accept accept world_bad_order "Hi" fresh
  = ("", fresh)
  /\ _provider_order world_bad_order None
     = ["openai"; "anthropic"; "google"; "mistral"; "cohere"].
Proof.
  apply (X18_unknown_order accept accept world_bad_order "Hi" "bogus, nope"
           fresh).
  - reflexivity.
  - intros p Hp. vm_compute in Hp.
    destruct Hp as [<- | [<- | []]]; vm_compute; intuition discriminate.
Defined.

Lemma X19_api_ask_reply_witness :
  api_ask accept accept no_snippets world_calc "   " remembered
  = (("Please type a question.", "none"), remembered).
Proof.
  apply (X19_api_ask_reply accept accept no_snippets world_calc "   "
           remembered).
  reflexivity.
Defined.

Lemma X20_api_ask_records_twice_witness :
  MEMORY (snd (api_ask accept accept no_snippets world_calc " 2+2 " fresh))
  = [("2+2", "4.00000000000000"); ("2+2", "4.00000000000000")].
Proof.
  destruct (X20_api_ask_records_twice accept accept no_snippets world_calc
              " 2+2 " fresh) as (_ & Htwice & _);
    try discriminate.
  apply Htwice. discriminate.
Defined.

Lemma X21_api_ask_remembers_sentinel_witness :
  fst (api_ask accept accept no_snippets world_openai_down
               "Why is the sky blue?"
               (snd (api_ask accept accept no_snippets world_no_keys
                             "Why is the sky blue?" fresh)))
  = ("I don't have an exact answer yet for that.", "local-memory")
  /\ fst (api_ask accept accept no_snippets world_openai_down
                  "Why is the sky blue?" fresh)
     = ("Paris", "anthropic").
Proof.
  split; [| reflexivity].
  apply (X21_api_ask_remembers_sentinel accept accept no_snippets
           world_no_keys world_openai_down "Why is the sky blue?" fresh);
    try reflexivity; discriminate.
Defined.
